(** * lunarc: the raycasting engine and the maze map, embedded in Rocq

    The development follows the TypeScript sources:
    - [src/src/main.ts]   (the DOOM engine, 1024x768),
    - the second engine file (the "Authentic DOOM Style" variant, 960x720),
    - the maze map module ([GameMap], with [types.ts]),
    - [src/src/player.ts] (the maze game: the classes [Player] and [Game]).

    JavaScript numbers are IEEE-754 doubles.  They are modelled here by the
    type [num]: exact rationals together with the special values of the
    standard (negative zero, the two infinities and NaN).  Finite results are
    not rounded; everything else (division by zero, the sign of a zero, the
    comparisons with NaN) follows the standard. *)

From Stdlib Require Import ZArith QArith Qround Qabs Qreduction List Bool Lia.
From Stdlib Require Qcanon.
From Stdlib Require Import Reals Lra Lqa.
From Stdlib Require String.
Import ListNotations.
Import String.StringSyntax.

Set Implicit Arguments.

(** ** JavaScript numbers *)

Module Num.

Inductive num : Type :=
| Fin (q : Q)      (* a finite number; [Fin 0] is +0 *)
| NegZero          (* -0 *)
| PInf             (* Infinity *)
| NInf             (* -Infinity *)
| NaN.

Declare Scope num_scope.
Delimit Scope num_scope with num.
Bind Scope num_scope with num.

(** The rational value of a finite number. *)
Definition val (a : num) : Q :=
  match a with
  | Fin q => q
  | _ => 0
  end.

Definition is_nan (a : num) : bool :=
  match a with NaN => true | _ => false end.

Definition is_inf (a : num) : bool :=
  match a with PInf | NInf => true | _ => false end.

Definition Qltb (p q : Q) : bool :=
  match p ?= q with Lt => true | _ => false end.

Definition Qeqb (p q : Q) : bool :=
  match p ?= q with Eq => true | _ => false end.

Definition Qleb (p q : Q) : bool :=
  match p ?= q with Gt => false | _ => true end.

Definition is_zero (a : num) : bool :=
  match a with
  | Fin q => Qeqb q 0
  | NegZero => true
  | _ => false
  end.

(** The sign bit. *)
Definition is_neg (a : num) : bool :=
  match a with
  | Fin q => Qltb q 0
  | NegZero | NInf => true
  | PInf | NaN => false
  end.

Definition signed_inf (s : bool) : num := if s then NInf else PInf.
Definition signed_zero (s : bool) : num := if s then NegZero else Fin 0.

(** A finite result, in lowest terms; a zero result takes the sign [s]. *)
Definition finite (s : bool) (q : Q) : num :=
  if Qeqb q 0 then signed_zero s else Fin (Qred q).

Definition ofZ (z : Z) : num := Fin (inject_Z z).

Definition neg (a : num) : num :=
  match a with
  | Fin q => if Qeqb q 0 then NegZero else Fin (Qred (- q))
  | NegZero => Fin 0
  | PInf => NInf
  | NInf => PInf
  | NaN => NaN
  end.

Definition add (a b : num) : num :=
  match a, b with
  | NaN, _ | _, NaN => NaN
  | PInf, NInf | NInf, PInf => NaN
  | PInf, _ | _, PInf => PInf
  | NInf, _ | _, NInf => NInf
  | NegZero, NegZero => NegZero
  | _, _ => finite false (val a + val b)
  end.

Definition sub (a b : num) : num := add a (neg b).

Definition mul (a b : num) : num :=
  if is_nan a || is_nan b then NaN
  else if (is_inf a && is_zero b) || (is_zero a && is_inf b) then NaN
  else
    let s := xorb (is_neg a) (is_neg b) in
    if is_inf a || is_inf b then signed_inf s
    else finite s (val a * val b).

Definition div (a b : num) : num :=
  if is_nan a || is_nan b then NaN
  else if (is_inf a && is_inf b) || (is_zero a && is_zero b) then NaN
  else
    let s := xorb (is_neg a) (is_neg b) in
    if is_inf a || is_zero b then signed_inf s
    else if is_inf b then signed_zero s
    else finite s (val a / val b).

(** [Math.abs] *)
Definition abs (a : num) : num :=
  match a with
  | Fin q => Fin (Qred (Qabs q))
  | NegZero => Fin 0
  | PInf | NInf => PInf
  | NaN => NaN
  end.

(** [Math.floor] *)
Definition floor (a : num) : num :=
  match a with
  | Fin q => Fin (inject_Z (Qfloor q))
  | _ => a
  end.

(** [a < b] *)
Definition ltb (a b : num) : bool :=
  match a, b with
  | NaN, _ | _, NaN => false
  | _, NInf | PInf, _ => false
  | NInf, _ | _, PInf => true
  | _, _ => Qltb (val a) (val b)
  end.

(** [a <= b] *)
Definition leb (a b : num) : bool :=
  match a, b with
  | NaN, _ | _, NaN => false
  | NInf, _ | _, PInf => true
  | _, NInf | PInf, _ => false
  | _, _ => Qleb (val a) (val b)
  end.

Definition is_finite (a : num) : bool := negb (is_nan a || is_inf a).

(** [a > b] and [a >= b] *)
Definition gtb (a b : num) : bool := ltb b a.
Definition geb (a b : num) : bool := leb b a.

(** [a === b] on numbers *)
Definition eqb (a b : num) : bool :=
  match a, b with
  | NaN, _ | _, NaN => false
  | PInf, PInf | NInf, NInf => true
  | PInf, _ | _, PInf | NInf, _ | _, NInf => false
  | _, _ => Qeqb (val a) (val b)
  end.

(** The array index a number denotes as a property key: an integral finite
    number (the key of -0 is "0"); [None] for every other number. *)
Definition index_of (a : num) : option Z :=
  match a with
  | Fin q => if Qeqb (inject_Z (Qfloor q)) q then Some (Qfloor q) else None
  | NegZero => Some 0%Z
  | _ => None
  end.

Infix "+" := add : num_scope.
Infix "-" := sub : num_scope.
Infix "*" := mul : num_scope.
Infix "/" := div : num_scope.
Notation "- a" := (neg a) : num_scope.
Infix "<?" := ltb : num_scope.
Infix "<=?" := leb : num_scope.
Infix ">?" := gtb : num_scope.
Infix ">=?" := geb : num_scope.
Infix "===" := eqb (at level 70, no associativity) : num_scope.

End Num.
Import Num.

(** ** Completion of a piece of code

    [Ret a]: normal completion with value [a]; [Throw]: a [TypeError] was
    thrown (a property read on [undefined]); [OutOfFuel]: a loop was still
    running when its iteration budget was used up. *)

Inductive outcome (A : Type) : Type :=
| Ret (a : A)
| Throw
| OutOfFuel.
Arguments Throw {A}.
Arguments OutOfFuel {A}.

Definition bind {A B : Type} (m : outcome A) (k : A -> outcome B) : outcome B :=
  match m with
  | Ret a => k a
  | Throw => Throw
  | OutOfFuel => OutOfFuel
  end.

Notation "x <- m ;; k" := (bind m (fun x => k))
  (at level 61, m at next level, right associativity).

(** ** Arrays *)

(** [a[i]] for a JavaScript array (or typed array) and a number [i]:
    [None] is [undefined]. *)
Definition get {A : Type} (a : list A) (i : num) : option A :=
  match index_of i with
  | Some z => if (z <? 0)%Z then None else nth_error a (Z.to_nat z)
  | None => None
  end.

(** [a[i][j]]: reading a property of [undefined] throws. *)
Definition get2 {A : Type} (a : list (list A)) (i j : num) : outcome (option A) :=
  match get a i with
  | Some row => Ret (get row j)
  | None => Throw
  end.

(** 32-bit integers of the bitwise operators. *)
Definition toInt32 (z : Z) : Z := ((z + 2 ^ 31) mod 2 ^ 32 - 2 ^ 31)%Z.

(** [ToInt32] of a value read from an array: [undefined] becomes 0. *)
Definition int32_of (v : option Z) : Z :=
  match v with
  | Some z => toInt32 z
  | None => 0%Z
  end.

Definition shr (a n : Z) : Z := Z.shiftr (toInt32 a) n.
Definition shl (a n : Z) : Z := toInt32 (Z.shiftl (toInt32 a) n).
Definition band (a b : Z) : Z := toInt32 (Z.land (toInt32 a) (toInt32 b)).
Definition bor (a b : Z) : Z := toInt32 (Z.lor (toInt32 a) (toInt32 b)).

(** ** The data model *)

(** [posX] and [posY] are the fields [x] and [y] of the interface [Player]. *)
Record Player : Type := mkPlayer {
  posX : num;
  posY : num;
  dirX : num;
  dirY : num;
  planeX : num;
  planeY : num;
  weapon : Z
}.

Record Texture : Type := mkTexture {
  tex_width : Z;
  tex_height : Z;
  pixels : list Z
}.

(** [worldMap[row][column]]: 0 is empty, a positive code is a wall. *)
Definition Grid : Type := list (list Z).

(** The pixel data of an [ImageData]: [size] bytes, RGBA. *)
Record ImageData : Type := mkImageData {
  size : Z;
  bytes : Z -> Z
}.

Definition createImageData (w h : Z) : ImageData :=
  {| size := w * h * 4; bytes := fun _ => 0%Z |}.

(** A [Uint8ClampedArray] clamps what is stored. *)
Definition clamp8 (v : Z) : Z := Z.max 0 (Z.min 255 v).

(** [data[i] = v]; a key that is not an index of the array is ignored. *)
Definition store (d : ImageData) (i : num) (v : Z) : ImageData :=
  match index_of i with
  | Some z =>
      if ((0 <=? z) && (z <? size d))%Z
      then {| size := size d;
              bytes := fun j => if (j =? z)%Z then clamp8 v else bytes d j |}
      else d
  | None => d
  end.

(** The four stores of one pixel. *)
Definition put_pixel (d : ImageData) (pixelIndex : num) (r g b : Z) : ImageData :=
  let d := store d pixelIndex r in
  let d := store d (pixelIndex + ofZ 1) g in
  let d := store d (pixelIndex + ofZ 2) b in
  store d (pixelIndex + ofZ 3) 255.

(** ** The raycasting renderer

    The column loop of [DoomEngine.render] is the same in the two engine
    files; they differ in the screen size, in the colours of floor and
    ceiling and in the weapon overlay. *)

Record Ray : Type := mkRay {
  mapX : num;
  mapY : num;
  sideDistX : num;
  sideDistY : num;
  side : Z
}.

Section Raycaster.
Local Open Scope num_scope.

Variables width height : Z.
Variables mapWidth mapHeight : Z.
Variable worldMap : Grid.
Variable textures : list Texture.

Section Column.

Variable player : Player.

Definition cameraX_of (col : Z) : num := ofZ 2 * ofZ col / ofZ width - ofZ 1.

Section Cast.

Variable cameraX : num.

Definition rayDirX : num := dirX player + planeX player * cameraX.
Definition rayDirY : num := dirY player + planeY player * cameraX.

Definition deltaDistX : num := abs (ofZ 1 / rayDirX).
Definition deltaDistY : num := abs (ofZ 1 / rayDirY).

Definition stepX : num := if rayDirX <? ofZ 0 then ofZ (-1) else ofZ 1.
Definition stepY : num := if rayDirY <? ofZ 0 then ofZ (-1) else ofZ 1.

(** The ray before the first step of the walk. *)
Definition ray_init : Ray :=
  let mapX := floor (posX player) in
  let mapY := floor (posY player) in
  {| mapX := mapX;
     mapY := mapY;
     sideDistX := if rayDirX <? ofZ 0
                  then (posX player - mapX) * deltaDistX
                  else (mapX + ofZ 1 - posX player) * deltaDistX;
     sideDistY := if rayDirY <? ofZ 0
                  then (posY player - mapY) * deltaDistY
                  else (mapY + ofZ 1 - posY player) * deltaDistY;
     side := 0 |}.

(** The first half of the loop body: jump to the next map square. *)
Definition dda_advance (r : Ray) : Ray :=
  if sideDistX r <? sideDistY r
  then {| mapX := mapX r + stepX; mapY := mapY r;
          sideDistX := sideDistX r + deltaDistX; sideDistY := sideDistY r;
          side := 0 |}
  else {| mapX := mapX r; mapY := mapY r + stepY;
          sideDistX := sideDistX r; sideDistY := sideDistY r + deltaDistY;
          side := 1 |}.

Definition in_bounds (r : Ray) : bool :=
  (mapX r >=? ofZ 0) && (mapX r <? ofZ mapWidth)
  && (mapY r >=? ofZ 0) && (mapY r <? ofZ mapHeight).

(** The second half: the value of [hit] after the test of the square. *)
Definition dda_hit (r : Ray) : outcome bool :=
  if in_bounds r
  then
    c <- get2 worldMap (mapY r) (mapX r) ;;
    Ret (match c with Some v => (0 <? v)%Z | None => false end)
  else Ret true.

(** [while (!hit) { ... }]: the number of iterations made and the ray at the
    hit. *)
Fixpoint dda_loop (fuel : nat) (r : Ray) : outcome (nat * Ray) :=
  match fuel with
  | O => OutOfFuel
  | S fuel' =>
      let r' := dda_advance r in
      hit <- dda_hit r' ;;
      if hit then Ret (1%nat, r')
      else
        res <- dda_loop fuel' r' ;;
        Ret (S (fst res), snd res)
  end.

Definition perpWallDist_of (r : Ray) : num :=
  if (side r =? 0)%Z
  then (mapX r - posX player + (ofZ 1 - stepX) / ofZ 2) / rayDirX
  else (mapY r - posY player + (ofZ 1 - stepY) / ofZ 2) / rayDirY.

(** What the drawing loops of a column use. *)
Record Strip : Type := mkStrip {
  lineHeight : num;
  drawStart : num;
  drawEnd : num;
  texX : num;
  texture : Texture
}.

(** [a % b] on integers; [None] is NaN. *)
Definition js_rem (a b : Z) : option Z :=
  if (b =? 0)%Z then None else Some (Z.rem a b).

(** [this.textures[texNum % this.textures.length]] for
    [texNum = this.worldMap[mapY][mapX] - 1]. *)
Definition texture_of (cell : option Z) : option Texture :=
  match cell with
  | Some v =>
      match js_rem (v - 1) (Z.of_nat (length textures)) with
      | Some i => get textures (ofZ i)
      | None => None
      end
  | None => None
  end.

(** From the ray at the hit to the strip: distance, line height, drawing
    limits, texture and texture column. *)
Definition strip_of (r : Ray) : outcome Strip :=
  let perpWallDist := perpWallDist_of r in
  let lineHeight := floor (ofZ height / perpWallDist) in
  let drawStart := - lineHeight / ofZ 2 + ofZ height / ofZ 2 in
  let drawStart := if drawStart <? ofZ 0 then ofZ 0 else drawStart in
  let drawEnd := lineHeight / ofZ 2 + ofZ height / ofZ 2 in
  let drawEnd := if drawEnd >=? ofZ height then ofZ height - ofZ 1 else drawEnd in
  cell <- get2 worldMap (mapY r) (mapX r) ;;
  let wallX := if (side r =? 0)%Z
               then posY player + perpWallDist * rayDirY
               else posX player + perpWallDist * rayDirX in
  let wallX := wallX - floor wallX in
  match texture_of cell with
  | Some texture =>
      Ret {| lineHeight := lineHeight;
             drawStart := drawStart;
             drawEnd := drawEnd;
             texX := floor (wallX * ofZ (tex_width texture));
             texture := texture |}
  | None => Throw
  end.

End Cast.

(** [for (let y = from; y < bound; y++) body] *)
Fixpoint for_rows (fuel : nat) (y bound : num)
    (body : num -> ImageData -> ImageData) (d : ImageData) : outcome ImageData :=
  if y <? bound
  then match fuel with
       | O => OutOfFuel
       | S fuel' => for_rows fuel' (y + ofZ 1) bound body (body y d)
       end
  else Ret d.

Section Draw.

Variable col : Z.
Variable sd : Z.
Variable st : Strip.

Definition pixelIndex_of (y : num) : num := (y * ofZ width + ofZ col) * ofZ 4.

(** The body of the wall loop. *)
Definition wall_row (y : num) (d : ImageData) : ImageData :=
  let tex := texture st in
  let dd := y * ofZ 256 - ofZ height * ofZ 128 + lineHeight st * ofZ 128 in
  let texY := floor (dd * ofZ (tex_height tex) / lineHeight st / ofZ 256) in
  if (texY >=? ofZ 0) && (texY <? ofZ (tex_height tex))
  then
    let color := int32_of (get (pixels tex) (texY * ofZ (tex_width tex) + texX st)) in
    let color :=
      if (sd =? 1)%Z
      then
        let r := shr (band (shr color 16) 255) 1 in
        let g := shr (band (shr color 8) 255) 1 in
        let b := shr (band color 255) 1 in
        bor (bor (shl r 16) (shl g 8)) b
      else color in
    put_pixel d (pixelIndex_of y)
      (band (shr color 16) 255) (band (shr color 8) 255) (band color 255)
  else d.

Definition flat_row (rgb : Z * Z * Z) (y : num) (d : ImageData) : ImageData :=
  let '(r, g, b) := rgb in
  put_pixel d (pixelIndex_of y) r g b.

(** The three drawing loops of a column: wall, floor, ceiling. *)
Definition draw_strip (fuel : nat) (floorRGB ceilingRGB : Z * Z * Z)
    (d : ImageData) : outcome ImageData :=
  d <- for_rows fuel (drawStart st) (drawEnd st) wall_row d ;;
  d <- for_rows fuel (drawEnd st + ofZ 1) (ofZ height) (flat_row floorRGB) d ;;
  for_rows fuel (ofZ 0) (drawStart st) (flat_row ceilingRGB) d.

End Draw.

(** One iteration of the raycasting loop, up to the drawing of the wall. *)
Definition cast_column (fuel : nat) (col : Z) : outcome (Ray * Strip) :=
  let cameraX := cameraX_of col in
  res <- dda_loop cameraX fuel (ray_init cameraX) ;;
  st <- strip_of cameraX (snd res) ;;
  Ret (snd res, st).

End Column.
End Raycaster.

(** The values of the counter of [for (let i = from; i < to; i++)]. *)
Definition range (from to : Z) : list Z :=
  map (fun k => (from + Z.of_nat k)%Z) (seq 0 (Z.to_nat (to - from))).

(** ** Movement and map generation: shared parts *)

(** How a key handler completes: normally, or by a [TypeError] thrown at a
    read of [this.worldMap[row][column]] whose row is [undefined]; the
    player is the one the engine is left with. *)
Inductive completion : Type :=
| Normal (p : Player)
| Abrupt (p : Player).

Definition player_of (c : completion) : Player :=
  match c with Normal p | Abrupt p => p end.

Definition set_posX (p : Player) (v : num) : Player :=
  {| posX := v; posY := posY p; dirX := dirX p; dirY := dirY p;
     planeX := planeX p; planeY := planeY p; weapon := weapon p |}.

Definition set_posY (p : Player) (v : num) : Player :=
  {| posX := posX p; posY := v; dirX := dirX p; dirY := dirY p;
     planeX := planeX p; planeY := planeY p; weapon := weapon p |}.

(** [c === 0] for a value read from the map. *)
Definition is_zero_cell (c : option Z) : bool :=
  match c with
  | Some v => (v =? 0)%Z
  | None => false
  end.

(** [if (this.worldMap[row][col] === 0) { assignment }] followed by [k];
    [moved] is the player after the assignment. *)
Definition when_empty (worldMap : Grid) (row col : num) (p moved : Player)
    (k : Player -> completion) : completion :=
  match get worldMap row with
  | Some cells => k (if is_zero_cell (get cells col) then moved else p)
  | None => Abrupt p
  end.

Definition moveSpeed : num := Fin (1 # 20).

(** [map[y][x] = v] for a cell of the array.  Every store of the two
    generators is inside the array: the bounds of their loops are constants,
    and the store of a random pillar follows a read of the same cell.
    Outside the array, where JavaScript would extend it, the map is left as
    it is. *)
Fixpoint set_nth {A : Type} (l : list A) (n : nat) (v : A) : list A :=
  match l, n with
  | [], _ => []
  | _ :: l', O => v :: l'
  | a :: l', S n' => a :: set_nth l' n' v
  end.

Definition set_cell (m : Grid) (y x : Z) (v : Z) : Grid :=
  match nth_error m (Z.to_nat y) with
  | Some row => set_nth m (Z.to_nat y) (set_nth row (Z.to_nat x) v)
  | None => m
  end.

(** The pseudo-random source: [rnd k] is what the [k]-th call of
    [Math.random()] returns, a finite number, here a rational.  A generator
    threads the number of calls made
    with the map under construction. *)
Definition GenState : Type := (Grid * nat)%type.

(** [if (Math.random() > threshold) map[y][x] = Math.floor(Math.random() * k) + 1] *)
Definition random_wall (rnd : nat -> Q) (threshold : Q) (k : Z) (y x : Z)
    (s : GenState) : GenState :=
  let '(m, n) := s in
  if Qltb threshold (rnd n)
  then (set_cell m y x (Qfloor (rnd (S n) * inject_Z k) + 1), S (S n))
  else (m, S n).

(** Two nested loops, [y] outside and [x] inside, over a rectangle. *)
Definition for_cells {S : Type} (y0 y1 x0 x1 : Z) (body : Z -> Z -> S -> S) (s : S) : S :=
  fold_left (fun s y => fold_left (fun s x => body y x s) (range x0 x1) s)
            (range y0 y1) s.

(** One iteration of the loop of the random pillars:
    [x = Math.floor(Math.random() * 28) + 2], the same for [y], and
    [if (map[y][x] === 0) map[y][x] = Math.floor(Math.random() * k) + 1]. *)
Definition random_pillar (rnd : nat -> Q) (k : Z) (s : GenState) : outcome GenState :=
  let '(m, n) := s in
  let x := (Qfloor (rnd n * 28) + 2)%Z in
  let y := (Qfloor (rnd (S n) * 28) + 2)%Z in
  c <- get2 m (ofZ y) (ofZ x) ;;
  if is_zero_cell c
  then Ret (set_cell m y x (Qfloor (rnd (S (S n)) * inject_Z k) + 1), S (S (S n)))
  else Ret (m, S (S n)).

Fixpoint random_pillars (rnd : nat -> Q) (k : Z) (count : nat) (s : GenState)
    : outcome GenState :=
  match count with
  | O => Ret s
  | S count' => s' <- random_pillar rnd k s ;; random_pillars rnd k count' s'
  end.

(** The first two steps of both generators: a 32x32 array of zeros, then the
    outer walls. *)
Definition empty_map (w h : Z) : Grid :=
  map (fun _ => map (fun _ => 0%Z) (range 0 w)) (range 0 h).

Definition outer_walls (w h : Z) (m : Grid) : Grid :=
  let m := fold_left (fun m x => set_cell (set_cell m 0 x 1) (h - 1) x 1) (range 0 w) m in
  fold_left (fun m y => set_cell (set_cell m y 0 1) y (w - 1) 1) (range 0 h) m.

(** ** The engine of [src/src/main.ts] *)

Module MainTs.

Definition width : Z := 1024.
Definition height : Z := 768.
Definition mapWidth : Z := 32.
Definition mapHeight : Z := 32.
Definition texWidth : Z := 64.
Definition texHeight : Z := 64.

Record Engine : Type := mkEngine {
  player : Player;
  worldMap : Grid;
  textures : list Texture;
  (* what [putImageData] last drew on the canvas *)
  canvas : ImageData
}.

(** The colour of texture [t] at [(x, y)], the [switch] of
    [generateTextures]. *)
Definition texel (t x y : Z) : Z :=
  match t with
  | 0 => if ((x / 8 + y / 8) mod 2 =? 0) then 0x8B4513 else 0xCD853F
  | 1 => 0x808080 + (Z.lxor x y) mod 0x40
  | 2 => if (y mod 16 <? 8) then 0x8B4513 else 0xD2691E
  | 3 => 0x4A4A4A + (x * y) mod 0x30
  | 4 => 0x654321
  | 5 => if (x mod 16 <? 8) && (y mod 16 <? 8) then 0x8B0000 else 0x5C4033
  | 6 => if (x mod 8 <? 4) && (y mod 8 <? 4) then 0x00FF00 else 0x006400
  | 7 => 0xE0E0E0 - (x + y) mod 0x40
  | _ => 0
  end%Z.

Definition generateTextures : list Texture :=
  map (fun t =>
         {| tex_width := texWidth;
            tex_height := texHeight;
            pixels := flat_map (fun y => map (fun x => texel t x y) (range 0 texWidth))
                               (range 0 texHeight) |})
      (range 0 8).

Definition floorRGB : Z * Z * Z := (0x40, 0x20, 0x10)%Z.
Definition ceilingRGB : Z * Z * Z := (0x20, 0x10, 0x08)%Z.

(** The raycasting loop over the columns [cols]. *)
Fixpoint render_columns (fuel : nat) (e : Engine) (cols : list Z) (data : ImageData)
    : outcome ImageData :=
  match cols with
  | [] => Ret data
  | col :: cols' =>
      c <- cast_column width height mapWidth mapHeight (worldMap e) (textures e)
             (player e) fuel col ;;
      data <- draw_strip width height col (side (fst c)) (snd c) fuel
                floorRGB ceilingRGB data ;;
      render_columns fuel e cols' data
  end.

(** [render]: a fresh image is filled column by column and put on the
    canvas. *)
Definition render (fuel : nat) (e : Engine) : outcome Engine :=
  data <- render_columns fuel e (range 0 width) (createImageData width height) ;;
  Ret {| player := player e; worldMap := worldMap e; textures := textures e;
         canvas := data |}.

(** *** Movement: the four branches of the [keydown] handler *)

Definition move_forward (w : Grid) (p : Player) : completion :=
  when_empty w (floor (posY p)) (floor (posX p + dirX p * moveSpeed * ofZ 2)) p
    (set_posX p (posX p + dirX p * moveSpeed)) (fun p =>
  when_empty w (floor (posY p + dirY p * moveSpeed * ofZ 2)) (floor (posX p)) p
    (set_posY p (posY p + dirY p * moveSpeed)) Normal).

Definition move_backward (w : Grid) (p : Player) : completion :=
  when_empty w (floor (posY p)) (floor (posX p - dirX p * moveSpeed * ofZ 2)) p
    (set_posX p (posX p - dirX p * moveSpeed)) (fun p =>
  when_empty w (floor (posY p - dirY p * moveSpeed * ofZ 2)) (floor (posX p)) p
    (set_posY p (posY p - dirY p * moveSpeed)) Normal).

Definition strafe_left (w : Grid) (p : Player) : completion :=
  let strafeX := (- dirY p * moveSpeed)%num in
  let strafeY := (dirX p * moveSpeed)%num in
  when_empty w (floor (posY p)) (floor (posX p + strafeX * ofZ 2)) p
    (set_posX p (posX p + strafeX)) (fun p =>
  when_empty w (floor (posY p + strafeY * ofZ 2)) (floor (posX p)) p
    (set_posY p (posY p + strafeY)) Normal).

Definition strafe_right (w : Grid) (p : Player) : completion :=
  let strafeX := (dirY p * moveSpeed)%num in
  let strafeY := (- dirX p * moveSpeed)%num in
  when_empty w (floor (posY p)) (floor (posX p + strafeX * ofZ 2)) p
    (set_posX p (posX p + strafeX)) (fun p =>
  when_empty w (floor (posY p + strafeY * ofZ 2)) (floor (posX p)) p
    (set_posY p (posY p + strafeY)) Normal).

(** *** [generateLargeMap] *)

Definition generateLargeMap (rnd : nat -> Q) : outcome Grid :=
  let m := outer_walls mapWidth mapHeight (empty_map mapWidth mapHeight) in
  (* the four rooms *)
  let s := for_cells 3 8 3 8 (random_wall rnd (3 # 10) 4) (m, O) in
  let s := for_cells 3 8 20 28 (random_wall rnd (4 # 10) 4) s in
  let s := for_cells 20 28 3 8 (random_wall rnd (4 # 10) 4) s in
  let s := for_cells 20 28 20 28 (random_wall rnd (2 # 10) 4) s in
  let '(m, n) := s in
  (* the corridors *)
  let m := fold_left (fun m x => set_cell (set_cell m 8 x 1) 20 x 1) (range 8 20) m in
  let m := fold_left (fun m y => set_cell (set_cell m y 8 1) y 20 1) (range 8 20) m in
  (* the pillars of the big room *)
  let m := set_cell m 22 22 2 in
  let m := set_cell m 22 25 3 in
  let m := set_cell m 25 22 4 in
  let m := set_cell m 25 25 5 in
  (* the random pillars *)
  s <- random_pillars rnd 5 10 (m, n) ;;
  Ret (fst s).

End MainTs.

(** ** The engine of the second file ("Authentic DOOM Style") *)

Module Doom.

Definition width : Z := 960.
Definition height : Z := 720.
Definition mapWidth : Z := 32.
Definition mapHeight : Z := 32.

Definition floorColors : list Z := [0x402010; 0x4a2a1a; 0x351a0e]%Z.
Definition ceilingColors : list Z := [0x201010; 0x251515; 0x1a0e0e]%Z.

(** [randoms k] is what the [k]-th call of [Math.random()] returns, a number
    of [[0, 1)]; [drawn] counts the calls made so far. *)
Record Engine : Type := mkEngine {
  player : Player;
  worldMap : Grid;
  textures : list Texture;
  weaponBob : num;
  canvas : ImageData;
  randoms : nat -> Q;
  drawn : nat
}.

(** [colors[Math.floor(Math.random() * colors.length)]] for the draw [r]. *)
Definition pick (colors : list Z) (r : Q) : option Z :=
  get colors (floor (Fin r * ofZ (Z.of_nat (length colors)))).

(** The three bytes stored for a colour. *)
Definition rgb_of (color : option Z) : Z * Z * Z :=
  let c := int32_of color in
  (band (shr c 16) 255, band (shr c 8) 255, band c 255).

(** The raycasting loop over the columns [cols]; [n] calls of
    [Math.random()] were made before. *)
Fixpoint render_columns (fuel : nat) (e : Engine) (cols : list Z) (n : nat)
    (data : ImageData) : outcome (ImageData * nat) :=
  match cols with
  | [] => Ret (data, n)
  | col :: cols' =>
      c <- cast_column width height mapWidth mapHeight (worldMap e) (textures e)
             (player e) fuel col ;;
      data <- for_rows fuel (drawStart (snd c)) (drawEnd (snd c))
                (wall_row width height col (side (fst c)) (snd c)) data ;;
      let floorColor := pick floorColors (randoms e n) in
      let ceilingColor := pick ceilingColors (randoms e (S n)) in
      data <- for_rows fuel (drawEnd (snd c) + ofZ 1)%num (ofZ height)
                (flat_row width col (rgb_of floorColor)) data ;;
      data <- for_rows fuel (ofZ 0) (drawStart (snd c))
                (flat_row width col (rgb_of ceilingColor)) data ;;
      render_columns fuel e cols' (S (S n)) data
  end.

Definition weaponWidth : Z := 200.
Definition weaponHeight : Z := 200.

(** The body of the two loops of the pistol sprite. *)
Definition weapon_pixel (bob : num) (data : ImageData) (wy wx : Z) : ImageData :=
  let weaponX := ((ofZ width - ofZ weaponWidth) / ofZ 2 + ofZ 50)%num in
  let weaponY := (ofZ height - ofZ weaponHeight + ofZ 20 + bob)%num in
  let screenX := (weaponX + ofZ wx)%num in
  let screenY := (weaponY + ofZ wy)%num in
  if (screenX >=? ofZ 0)%num && (screenX <? ofZ width)%num
     && (screenY >=? ofZ 0)%num && (screenY <? ofZ height)%num
  then
    if ((80 <? wx) && (wx <? 120) && (150 <? wy))%Z
    then put_pixel data ((screenY * ofZ width + screenX) * ofZ 4)%num 0x44 0x44 0x44
    else data
  else data.

Definition draw_weapon (e : Engine) (data : ImageData) : ImageData :=
  if (weapon (player e) =? 0)%Z
  then fold_left (fun d wy => fold_left (fun d wx => weapon_pixel (weaponBob e) d wy wx)
                                        (range 0 weaponWidth) d)
                 (range 0 weaponHeight) data
  else data.

Definition render (fuel : nat) (e : Engine) : outcome Engine :=
  res <- render_columns fuel e (range 0 width) (drawn e) (createImageData width height) ;;
  Ret {| player := player e; worldMap := worldMap e; textures := textures e;
         weaponBob := weaponBob e;
         canvas := draw_weapon e (fst res);
         randoms := randoms e;
         drawn := snd res |}.

(** *** Movement: the four branches of the [keydown] handler

    The forward branch ends with an assignment of [weaponBob], a field of
    the engine that only [render] reads; it is not part of the player. *)

Definition move_forward (w : Grid) (p : Player) : completion :=
  let newX := (posX p + dirX p * moveSpeed)%num in
  let newY := (posY p + dirY p * moveSpeed)%num in
  when_empty w (floor (posY p)) (floor newX) p (set_posX p newX) (fun p =>
  when_empty w (floor newY) (floor (posX p)) p (set_posY p newY) Normal).

Definition move_backward (w : Grid) (p : Player) : completion :=
  let newX := (posX p - dirX p * moveSpeed)%num in
  let newY := (posY p - dirY p * moveSpeed)%num in
  when_empty w (floor (posY p)) (floor newX) p (set_posX p newX) (fun p =>
  when_empty w (floor newY) (floor (posX p)) p (set_posY p newY) Normal).

Definition strafe_left (w : Grid) (p : Player) : completion :=
  let strafeX := (- dirY p * moveSpeed)%num in
  let strafeY := (dirX p * moveSpeed)%num in
  when_empty w (floor (posY p)) (floor (posX p + strafeX)) p
    (set_posX p (posX p + strafeX)) (fun p =>
  when_empty w (floor (posY p + strafeY)) (floor (posX p)) p
    (set_posY p (posY p + strafeY)) Normal).

Definition strafe_right (w : Grid) (p : Player) : completion :=
  let strafeX := (dirY p * moveSpeed)%num in
  let strafeY := (- dirX p * moveSpeed)%num in
  when_empty w (floor (posY p)) (floor (posX p + strafeX)) p
    (set_posX p (posX p + strafeX)) (fun p =>
  when_empty w (floor (posY p + strafeY)) (floor (posX p)) p
    (set_posY p (posY p + strafeY)) Normal).

(** *** [createDoomMap] *)

Definition createDoomMap (rnd : nat -> Q) : outcome Grid :=
  let m := outer_walls mapWidth mapHeight (empty_map mapWidth mapHeight) in
  (* the main hall *)
  let m := for_cells 5 10 5 20
             (fun y x m => if ((Z.rem x 3 =? 0) && (Z.rem y 3 =? 0))%Z
                           then set_cell m y x 2 else m) m in
  (* the two side rooms *)
  let s := for_cells 15 22 5 12
             (fun y x s => let '(m, n) := s in
                           if Qltb (3 # 10) (rnd n) then (set_cell m y x 3, S n)
                           else (m, S n)) (m, O) in
  let s := for_cells 15 22 18 25
             (fun y x s => let '(m, n) := s in
                           if Qltb (3 # 10) (rnd n) then (set_cell m y x 4, S n)
                           else (m, S n)) s in
  let '(m, n) := s in
  (* the secret area *)
  let m := set_cell m 25 25 5 in
  let m := for_cells 22 28 22 28
             (fun y x m => if ((23 <? y) && (23 <? x))%Z
                           then set_cell m y x 6 else m) m in
  (* the corridors *)
  let m := fold_left (fun m i => set_cell (set_cell m i 12 1) i 17 1) (range 10 22) m in
  (* the random decorations *)
  s <- random_pillars rnd 4 20 (m, n) ;;
  Ret (fst s).

End Doom.

(** ** Rotation

    The two rotation branches of the [keydown] handler are the same in both
    engine files.  [Math.cos] and [Math.sin] have no rational values, so the
    rotation is stated over the real numbers. *)

Module Rotation.

Record Pose : Type := mkPose {
  dirX : R;
  dirY : R;
  planeX : R;
  planeY : R
}.

Definition rotSpeed : R := 3 / 100.

(** The four assignments of a rotation by the angle [a]. *)
Definition rotate (a : R) (p : Pose) : Pose :=
  let oldDirX := dirX p in
  let dirX' := (dirX p * cos a - dirY p * sin a)%R in
  let dirY' := (oldDirX * sin a + dirY p * cos a)%R in
  let oldPlaneX := planeX p in
  let planeX' := (planeX p * cos a - planeY p * sin a)%R in
  let planeY' := (oldPlaneX * sin a + planeY p * cos a)%R in
  {| dirX := dirX'; dirY := dirY'; planeX := planeX'; planeY := planeY' |}.

(** [keys['ArrowLeft']] and [keys['ArrowRight']] *)
Definition rotate_left (p : Pose) : Pose := rotate (- rotSpeed) p.
Definition rotate_right (p : Pose) : Pose := rotate rotSpeed p.

Definition dot (p : Pose) : R := (dirX p * planeX p + dirY p * planeY p)%R.
Definition plane_length (p : Pose) : R := sqrt (planeX p * planeX p + planeY p * planeY p).

End Rotation.

(** ** The maze map ([GameMap]) *)

Module GameMap.

Record Position : Type := mkPosition {
  pos_x : num;   (* the field [x] *)
  pos_y : num    (* the field [y] *)
}.

Record Wall : Type := mkWall {
  wall_x : num;
  wall_y : num;
  wall_width : num;
  wall_height : num
}.

Record MapData : Type := mkMapData {
  walls : list Wall;
  pellets : list Position;
  powerPellets : list Position;
  width : num;
  height : num;
  cellSize : num
}.

(** [Array.prototype.findIndex]: the index of the first element that
    satisfies [f], -1 when there is none. *)
Fixpoint findIndex {A : Type} (f : A -> bool) (l : list A) : Z :=
  match l with
  | [] => -1
  | a :: l' =>
      if f a then 0
      else let i := findIndex f l' in
           if (i =? -1)%Z then -1 else (i + 1)%Z
  end.

(** [l.splice(i, 1)] for an index [i >= 0]: the list without its element
    of index [i]. *)
Fixpoint splice1 {A : Type} (l : list A) (i : nat) : list A :=
  match l, i with
  | [], _ => []
  | _ :: l', O => l'
  | a :: l', S i' => a :: splice1 l' i'
  end.

(** The cell a pixel position falls in. *)
Definition cell_of (m : MapData) (v : num) : num := floor (v / cellSize m).

(** The test of [findIndex] in [removePellet]. *)
Definition at_cell (cellX cellY : num) (p : Position) : bool :=
  (pos_x p === cellX)%num && (pos_y p === cellY)%num.

(** [removePellet(x, y)]: the map data after the call and the value
    returned. *)
Definition removePellet (m : MapData) (x y : num) : MapData * bool :=
  let cellX := cell_of m x in
  let cellY := cell_of m y in
  let pelletIndex := findIndex (at_cell cellX cellY) (pellets m) in
  if negb (pelletIndex =? -1)%Z
  then ({| walls := walls m;
           pellets := splice1 (pellets m) (Z.to_nat pelletIndex);
           powerPellets := powerPellets m;
           width := width m; height := height m; cellSize := cellSize m |},
        true)
  else (m, false).

(** The test of [walls.some(...)] in [isWallAt] and in [checkCollision]:
    the wall covers the cell [(x, y)]. *)
Definition covers (x y : num) (wall : Wall) : bool :=
  ((x >=? wall_x wall) && (x <? wall_x wall + wall_width wall)
   && (y >=? wall_y wall) && (y <? wall_y wall + wall_height wall))%num.

Definition isWallAt (x y : num) (walls : list Wall) : bool :=
  existsb (covers x y) walls.

(** [checkCollision(x, y)] for a pixel position. *)
Definition checkCollision (m : MapData) (x y : num) : bool :=
  let cellX := cell_of m x in
  let cellY := cell_of m y in
  existsb (covers cellX cellY) (walls m).

(** A wall literal [{ x, y, width, height }] of [createMap]. *)
Definition wall (x y w h : Z) : Wall :=
  {| wall_x := ofZ x; wall_y := ofZ y; wall_width := ofZ w; wall_height := ofZ h |}.

(** The four outer walls: top, bottom, left, right. *)
Definition outerWalls : list Wall :=
  [wall 0 0 30 1; wall 0 29 30 1; wall 0 1 1 28; wall 29 1 1 28].

Definition innerWalls : list Wall :=
  [wall 5 5 20 2; wall 5 8 2 5; wall 23 8 2 5;
   wall 10 12 10 2; wall 5 15 2 5; wall 23 15 2 5;
   wall 5 22 20 2; wall 12 18 6 2].

(** The two loops of [createMap] that push a pellet for every cell of the
    inner 28x28 cells that no wall covers. *)
Definition add_pellets (walls : list Wall) : list Position :=
  for_cells 1 29 1 29
    (fun y x pellets =>
       if negb (isWallAt (ofZ x) (ofZ y) walls)
       then pellets ++ [{| pos_x := ofZ x; pos_y := ofZ y |}]
       else pellets)
    [].

Definition createMap : MapData :=
  let cellSize := ofZ 20 in
  let walls := outerWalls ++ innerWalls in
  let pellets := add_pellets walls in
  {| walls := walls;
     pellets := pellets;
     powerPellets := [{| pos_x := ofZ 2; pos_y := ofZ 2 |};
                      {| pos_x := ofZ 27; pos_y := ofZ 2 |};
                      {| pos_x := ofZ 2; pos_y := ofZ 27 |};
                      {| pos_x := ofZ 27; pos_y := ofZ 27 |}];
     width := ofZ 30;
     height := ofZ 30;
     cellSize := cellSize |}.

End GameMap.

(** ** The maze game ([src/src/player.ts])

    The file holds the class [Player] and, after it, the class [Game].  The
    methods [draw] of the two classes and of [GameMap] only issue calls of
    the canvas; [Game.updateScore] only writes the score into the page.
    They change no field and are not modelled. *)

Module Pacman.
Import GameMap.

Inductive Direction : Type := up | down | left | right.

(** The class [Player] of the maze game. *)
Record Player : Type := mkPlayer {
  position : Position;
  direction : Direction;
  nextDirection : option Direction;   (* [None] is [null] *)
  speed : num;
  radius : num;
  mouthOpen : num;
  mouthDirection : num
}.

(** [new Player(startX, startY)] *)
Definition new_Player (startX startY : num) : Player :=
  {| position := {| pos_x := startX; pos_y := startY |};
     direction := right;
     nextDirection := None;
     speed := ofZ 2;
     radius := ofZ 8;
     mouthOpen := ofZ 0;
     mouthDirection := ofZ 1 |}.

(** [moveInDirection(pos, dir)]: the position object after the call. *)
Definition moveInDirection (speed : num) (pos : Position) (dir : Direction) : Position :=
  match dir with
  | up => {| pos_x := pos_x pos; pos_y := (pos_y pos - speed)%num |}
  | down => {| pos_x := pos_x pos; pos_y := (pos_y pos + speed)%num |}
  | left => {| pos_x := (pos_x pos - speed)%num; pos_y := pos_y pos |}
  | right => {| pos_x := (pos_x pos + speed)%num; pos_y := pos_y pos |}
  end.

(** The first block of [update]: the pending turn. *)
Definition try_turn (map : MapData) (p : Player) : Player :=
  match nextDirection p with
  | Some next =>
      let testPos := moveInDirection (speed p) (position p) next in
      if negb (checkCollision map (pos_x testPos) (pos_y testPos))
      then {| position := position p; direction := next; nextDirection := None;
              speed := speed p; radius := radius p;
              mouthOpen := mouthOpen p; mouthDirection := mouthDirection p |}
      else p
  | None => p
  end.

(** The second block: one step in the current direction. *)
Definition advance (map : MapData) (p : Player) : Player :=
  let newPos := moveInDirection (speed p) (position p) (direction p) in
  if negb (checkCollision map (pos_x newPos) (pos_y newPos))
  then {| position := newPos; direction := direction p;
          nextDirection := nextDirection p;
          speed := speed p; radius := radius p;
          mouthOpen := mouthOpen p; mouthDirection := mouthDirection p |}
  else p.

(** The third block: the animation of the mouth. *)
Definition animate (p : Player) : Player :=
  let opened := (mouthOpen p + mouthDirection p * Fin (1 # 10))%num in
  let '(opened, dir) :=
    if (opened >? ofZ 1)%num then (ofZ 1, ofZ (-1))
    else if (opened <? ofZ 0)%num then (ofZ 0, ofZ 1)
    else (opened, mouthDirection p) in
  {| position := position p; direction := direction p;
     nextDirection := nextDirection p;
     speed := speed p; radius := radius p;
     mouthOpen := opened; mouthDirection := dir |}.

(** [update(map)] *)
Definition update (map : MapData) (p : Player) : Player :=
  animate (advance map (try_turn map p)).

(** [setDirection(dir)] *)
Definition setDirection (dir : Direction) (p : Player) : Player :=
  {| position := position p; direction := direction p;
     nextDirection := Some dir;
     speed := speed p; radius := radius p;
     mouthOpen := mouthOpen p; mouthDirection := mouthDirection p |}.

End Pacman.

Module Game.
Import GameMap.
Local Open Scope string_scope.

(** The class [Game]; [keys] is the [Set] of the keys that are held, in
    the order of their insertion. *)
Record Game : Type := mkGame {
  map : MapData;
  player : Pacman.Player;
  score : num;
  keys : list String.string
}.

(** [Set.prototype.has], [add] and [delete]. *)
Definition has (keys : list String.string) (k : String.string) : bool :=
  existsb (String.eqb k) keys.

Definition add (keys : list String.string) (k : String.string) : list String.string :=
  if has keys k then keys else keys ++ [k].

Definition delete (keys : list String.string) (k : String.string) : list String.string :=
  filter (fun k' => negb (String.eqb k k')) keys.

(** [new Game(canvasId)]: the map of [createMap] and the player in the
    middle of the canvas. *)
Definition new_Game : Game :=
  {| map := createMap;
     player := Pacman.new_Player (ofZ 300) (ofZ 300);
     score := ofZ 0;
     keys := [] |}.

Definition set_player (g : Game) (p : Pacman.Player) : Game :=
  {| map := map g; player := p; score := score g; keys := keys g |}.

(** [handleInput()] *)
Definition handleInput (g : Game) : Game :=
  if has (keys g) "ArrowUp" then set_player g (Pacman.setDirection Pacman.up (player g))
  else if has (keys g) "ArrowDown" then set_player g (Pacman.setDirection Pacman.down (player g))
  else if has (keys g) "ArrowLeft" then set_player g (Pacman.setDirection Pacman.left (player g))
  else if has (keys g) "ArrowRight" then set_player g (Pacman.setDirection Pacman.right (player g))
  else g.

(** The two listeners of [setupEventListeners]. *)
Definition keydown (key : String.string) (g : Game) : Game :=
  handleInput {| map := map g; player := player g; score := score g;
                 keys := add (keys g) key |}.

Definition keyup (key : String.string) (g : Game) : Game :=
  {| map := map g; player := player g; score := score g;
     keys := delete (keys g) key |}.

(** [update()]: the player moves, the pellet under it is collected and
    the score goes up by 10. *)
Definition update (g : Game) : Game :=
  let player := Pacman.update (map g) (player g) in
  let playerPos := Pacman.position player in
  let '(map, removed) := removePellet (map g) (pos_x playerPos) (pos_y playerPos) in
  {| map := map;
     player := player;
     score := if removed then (score g + ofZ 10)%num else score g;
     keys := keys g |}.

End Game.

(** ** The keyboard and the game loop of the two engines

    A key handler reads the keys that are held from the object [keys] of
    [setupInput]: [keys[k]] is [true] after a [keydown] of [k] and [false]
    after its [keyup]; a key that was never pressed reads [undefined], which
    counts as [false]. *)

Module Input.
Local Open Scope string_scope.

Definition Keys : Type := String.string -> bool.

Definition no_keys : Keys := fun _ => false.

(** [keys[key] = v] *)
Definition set_key (keys : Keys) (key : String.string) (v : bool) : Keys :=
  fun k => if String.eqb k key then v else keys k.

(** The [keyup] listener. *)
Definition keyup (keys : Keys) (key : String.string) : Keys := set_key keys key false.

Definition set_weapon (p : Player) (v : Z) : Player :=
  {| posX := posX p; posY := posY p; dirX := dirX p; dirY := dirY p;
     planeX := planeX p; planeY := planeY p; weapon := v |}.

(** The four tests [if (key === '1') this.player.weapon = 0] ... *)
Definition switch_weapon (key : String.string) (p : Player) : Player :=
  let p := if String.eqb key "1" then set_weapon p 0 else p in
  let p := if String.eqb key "2" then set_weapon p 1 else p in
  let p := if String.eqb key "3" then set_weapon p 2 else p in
  if String.eqb key "4" then set_weapon p 3 else p.

(** Sequencing in a handler: what follows a statement that threw is not
    run. *)
Definition and_then (c : completion) (k : Player -> completion) : completion :=
  match c with
  | Normal p => k p
  | Abrupt p => Abrupt p
  end.

(** [if (held) { branch }] *)
Definition when_held (held : bool) (branch : Player -> completion) (p : Player)
    : completion :=
  if held then branch p else Normal p.

Definition rotSpeed : num := Fin (3 # 100).

Section Trigonometry.

(** [Math.cos] and [Math.sin]: any two functions on numbers. *)
Variables Math_cos Math_sin : num -> num.

(** The four assignments of a rotation branch, for the angle [a]
    ([-rotSpeed] for [ArrowLeft], [rotSpeed] for [ArrowRight]). *)
Definition rotate (a : num) (p : Player) : Player :=
  let oldDirX := dirX p in
  let dirX' := (dirX p * Math_cos a - dirY p * Math_sin a)%num in
  let dirY' := (oldDirX * Math_sin a + dirY p * Math_cos a)%num in
  let oldPlaneX := planeX p in
  let planeX' := (planeX p * Math_cos a - planeY p * Math_sin a)%num in
  let planeY' := (oldPlaneX * Math_sin a + planeY p * Math_cos a)%num in
  {| posX := posX p; posY := posY p; dirX := dirX'; dirY := dirY';
     planeX := planeX'; planeY := planeY'; weapon := weapon p |}.

Definition rotations (keys : Keys) (p : Player) : Player :=
  let p := if keys "ArrowLeft" then rotate (- rotSpeed) p else p in
  if keys "ArrowRight" then rotate rotSpeed p else p.

(** The [keydown] listener of [src/src/main.ts]: the keys after the event
    and the completion of the listener. *)
Definition main_keydown (worldMap : Grid) (keys : Keys) (p : Player)
    (key : String.string) : Keys * completion :=
  let keys := set_key keys key true in
  (keys,
   and_then (when_held (keys "w" || keys "W") (MainTs.move_forward worldMap) p) (fun p =>
   and_then (when_held (keys "s" || keys "S") (MainTs.move_backward worldMap) p) (fun p =>
   and_then (when_held (keys "a" || keys "A") (MainTs.strafe_left worldMap) p) (fun p =>
   and_then (when_held (keys "d" || keys "D") (MainTs.strafe_right worldMap) p) (fun p =>
   Normal (switch_weapon key (rotations keys p))))))).

End Trigonometry.

(** [Math.round]: the nearest integer, a half goes up; a result that is
    zero keeps the sign of the argument. *)
Definition round (a : num) : num :=
  match a with
  | Fin q =>
      if Qltb q 0 && Qleb (- (1 # 2)) q then NegZero
      else Fin (inject_Z (Qfloor (q + (1 # 2))))
  | _ => a
  end.

(** The frame counter of [gameLoop] in [src/src/main.ts]. *)
Record Fps : Type := mkFps {
  frameCount : num;
  lastTime : num;
  fps : num
}.

(** The part of [gameLoop] after the three drawing calls; [now] is the
    value of [performance.now()]. *)
Definition count_frame (now : num) (s : Fps) : Fps :=
  let frameCount := (frameCount s + ofZ 1)%num in
  let delta := (now - lastTime s)%num in
  if (delta >=? ofZ 1000)%num
  then {| frameCount := ofZ 0;
          lastTime := now;
          fps := round (frameCount * ofZ 1000 / delta)%num |}
  else {| frameCount := frameCount; lastTime := lastTime s; fps := fps s |}.

(** [gameLoop] of [src/src/main.ts]: [render], then the counter.
    ([renderMinimap] and [updateDebug] draw and write into the page.) *)
Definition main_gameLoop (fuel : nat) (now : num) (s : MainTs.Engine * Fps)
    : outcome (MainTs.Engine * Fps) :=
  e <- MainTs.render fuel (fst s) ;;
  Ret (e, count_frame now (snd s)).

End Input.

(** ** The second engine: shots, the status bar and the keyboard *)

Module DoomSession.
Import Input.
Local Open Scope string_scope.

(** The engine with the fields of its player that the renderer does not
    read, and the fields [automapVisible], [frame], [lastShot] and
    [currentFace]. *)
Record State : Type := mkState {
  engine : Doom.Engine;
  health : num;
  armor : num;
  ammo : num;
  frags : num;
  automapVisible : bool;
  frame : num;
  lastShot : num;
  currentFace : Z
}.

Definition set_engine (s : State) (e : Doom.Engine) : State :=
  {| engine := e; health := health s; armor := armor s; ammo := ammo s;
     frags := frags s; automapVisible := automapVisible s; frame := frame s;
     lastShot := lastShot s; currentFace := currentFace s |}.

Definition set_currentFace (s : State) (f : Z) : State :=
  {| engine := engine s; health := health s; armor := armor s; ammo := ammo s;
     frags := frags s; automapVisible := automapVisible s; frame := frame s;
     lastShot := lastShot s; currentFace := f |}.

Definition with_player (e : Doom.Engine) (p : Player) : Doom.Engine :=
  {| Doom.player := p; Doom.worldMap := Doom.worldMap e;
     Doom.textures := Doom.textures e; Doom.weaponBob := Doom.weaponBob e;
     Doom.canvas := Doom.canvas e; Doom.randoms := Doom.randoms e;
     Doom.drawn := Doom.drawn e |}.

Definition with_weaponBob (e : Doom.Engine) (bob : num) : Doom.Engine :=
  {| Doom.player := Doom.player e; Doom.worldMap := Doom.worldMap e;
     Doom.textures := Doom.textures e; Doom.weaponBob := bob;
     Doom.canvas := Doom.canvas e; Doom.randoms := Doom.randoms e;
     Doom.drawn := Doom.drawn e |}.

Definition set_player (s : State) (p : Player) : State :=
  set_engine s (with_player (engine s) p).

(** [fire()]; [now] is the value of [Date.now()]. *)
Definition fire (now : num) (s : State) : State :=
  if ((now - lastShot s >? ofZ 200) && (ammo s >? ofZ 0))%num
  then {| engine := engine s; health := health s; armor := armor s;
          ammo := (ammo s - ofZ 1)%num;
          frags := (frags s + ofZ 1)%num;
          automapVisible := automapVisible s; frame := frame s;
          lastShot := now;
          currentFace := 2 |}
  else s.

(** The callback [fire] hands to [setTimeout]. *)
Definition fire_timeout (s : State) : State :=
  set_currentFace s (if (health s >? ofZ 50)%num then 0 else 3).

(** The face [updateHUD] chooses. *)
Definition face_of (health : num) : Z :=
  if (health <=? ofZ 0)%num then 4
  else if (health <? ofZ 20)%num then 3
  else if (health <? ofZ 50)%num then 2
  else if (health <? ofZ 80)%num then 1
  else 0.

(** [updateHUD()]: the field it assigns; the rest writes into the page. *)
Definition updateHUD (s : State) : State := set_currentFace s (face_of (health s)).

(** The click listener of the weapon slot [index] ([setupUI]). *)
Definition click_weapon (index : Z) (s : State) : State :=
  set_player s (set_weapon (Doom.player (engine s)) index).

(** [gameLoop]: the frame counter, [render] and the status bar.
    ([renderAutomap] draws on its own canvas.) *)
Definition gameLoop (fuel : nat) (s : State) : outcome State :=
  let frame := (frame s + ofZ 1)%num in
  e <- Doom.render fuel (engine s) ;;
  Ret (updateHUD {| engine := e; health := health s; armor := armor s;
                    ammo := ammo s; frags := frags s;
                    automapVisible := automapVisible s; frame := frame;
                    lastShot := lastShot s; currentFace := currentFace s |}).

(** How the [keydown] listener completes: normally, or by the [TypeError]
    of a row read, with the state it has reached. *)
Inductive handled : Type :=
| Completed (s : State)
| Thrown (s : State).

Definition state_of (h : handled) : State :=
  match h with Completed s | Thrown s => s end.

(** A movement branch inside the listener. *)
Definition moving (held : bool) (move : Grid -> Player -> completion) (s : State)
    (k : State -> handled) : handled :=
  if held
  then match move (Doom.worldMap (engine s)) (Doom.player (engine s)) with
       | Normal p => k (set_player s p)
       | Abrupt p => Thrown (set_player s p)
       end
  else k s.

Section Trigonometry.

Variables Math_cos Math_sin : num -> num.

(** The [keydown] listener of the second engine; [now] is the value
    [Date.now()] has if [fire] is called. *)
Definition keydown (keys : Keys) (s : State) (key : String.string) (now : num)
    : Keys * handled :=
  let keys := set_key keys key true in
  (keys,
   moving (keys "w" || keys "W") Doom.move_forward s (fun s =>
   let s := if keys "w" || keys "W"
            then set_engine s (with_weaponBob (engine s)
                                 (Math_sin (frame s * Fin (1 # 5)) * ofZ 5)%num)
            else s in
   moving (keys "s" || keys "S") Doom.move_backward s (fun s =>
   moving (keys "a" || keys "A") Doom.strafe_left s (fun s =>
   moving (keys "d" || keys "D") Doom.strafe_right s (fun s =>
   let s := set_player s (rotations Math_cos Math_sin keys (Doom.player (engine s))) in
   let s := if String.eqb key "Tab"
            then {| engine := engine s; health := health s; armor := armor s;
                    ammo := ammo s; frags := frags s;
                    automapVisible := negb (automapVisible s); frame := frame s;
                    lastShot := lastShot s; currentFace := currentFace s |}
            else s in
   let s := set_player s (switch_weapon key (Doom.player (engine s))) in
   let s := if String.eqb key "Control" then fire now s else s in
   Completed s))))).

End Trigonometry.

End DoomSession.

(** ** Shapes of maps and positions, as the specification names them *)

(** The map is an array of [h] rows of [w] cells. *)
Definition wf_grid (w h : Z) (m : Grid) : bool :=
  (Z.of_nat (length m) =? h)%Z
  && forallb (fun row => (Z.of_nat (length row) =? w)%Z) m.

(** Wall codes are never negative. *)
Definition nonneg_cells (m : Grid) : bool :=
  forallb (forallb (fun v => (0 <=? v)%Z)) m.

(** The cell of column [zx] in row [zy]. *)
Definition cell_at (m : Grid) (zx zy : Z) : option Z :=
  if ((zx <? 0) || (zy <? 0))%Z then None
  else match nth_error m (Z.to_nat zy) with
       | Some row => nth_error row (Z.to_nat zx)
       | None => None
       end.

Definition on_border (w h : Z) (zx zy : Z) : bool :=
  ((zx =? 0) || (zx =? w - 1) || (zy =? 0) || (zy =? h - 1))%Z.

(** Every border cell holds a non-zero code. *)
Definition sealed (w h : Z) (m : Grid) : bool :=
  forallb (fun zy =>
    forallb (fun zx =>
      if on_border w h zx zy
      then match cell_at m zx zy with
           | Some v => negb (v =? 0)%Z
           | None => false
           end
      else true) (range 0 w)) (range 0 h).

(** The player's square is a square of the map that is not on the border. *)
Definition strictly_inside (w h : Z) (p : Player) : bool :=
  (floor (posX p) >=? ofZ 1)%num && (floor (posX p) <? ofZ (w - 1))%num
  && (floor (posY p) >=? ofZ 1)%num && (floor (posY p) <? ofZ (h - 1))%num.

(** The number of steps a ray can take along one axis before it leaves the
    map: [z] is the coordinate, [bound] the size of the map along the axis,
    [step] the direction of the ray. *)
Definition exit_dist (step : num) (bound z : Z) : Z :=
  if (step <? ofZ 0)%num then (z + 1)%Z else (bound - z)%Z.

(** The ray is in the square of column [zx] and row [zy]. *)
Definition ray_at (r : Ray) (zx zy : Z) : Prop :=
  index_of (mapX r) = Some zx /\ index_of (mapY r) = Some zy.

(** ** Frames: the bytes a column writes *)

(** The integer a number is, when it is written as one. *)
Definition as_int (a : num) : option Z :=
  match a with
  | Fin (z # 1) => Some z
  | _ => None
  end.

(** The byte [j] is one of the four bytes of the pixel of row [row] and
    column [col] in a frame of width [width]. *)
Definition pixel_bytes (width row col j : Z) : bool :=
  (((row * width + col) * 4 <=? j) && (j <? (row * width + col) * 4 + 4))%Z.

(** The rows the three drawing loops of a column visit when the drawing
    limits are the integers [a] and [b]: the wall rows [[a, b)], the floor
    rows from [b + 1] to the bottom, the ceiling rows [[0, a)]. *)
Definition visited_row (height a b r : Z) : bool :=
  (((a <=? r) && (r <? b)) || ((b <? r) && (r <? height))
   || ((0 <=? r) && (r <? a)))%Z.

(** The byte [j] belongs to a pixel of column [col] in a visited row. *)
Definition writes_byte (width height a b col j : Z) : bool :=
  ((0 <=? j) && (j / 4 mod width =? col)
   && visited_row height a b (j / 4 / width))%Z.

(** The drawing limits of a column, when they are integers. *)
Definition strip_limits (c : outcome (Ray * Strip)) : option (Z * Z) :=
  match c with
  | Ret (_, st) =>
      match as_int (drawStart st), as_int (drawEnd st) with
      | Some a, Some b => Some (a, b)
      | _, _ => None
      end
  | _ => None
  end.

(** The column [col] is cast without an error, its drawing limits are
    integers inside the frame, and its loops do not visit the byte [j]. *)
Definition column_misses (width height : Z) (j : Z) (col : Z)
    (c : outcome (Ray * Strip)) : bool :=
  match strip_limits c with
  | Some (a, b) =>
      ((0 <=? col) && (col <? width)
       && (0 <=? a) && (a <=? height) && (-1 <=? b) && (b <=? height))%Z
      && negb (writes_byte width height a b col j)
  | None => false
  end.

(** Every column of the frame of [src/src/main.ts] misses the byte [j]. *)
Definition main_columns_miss (fuel : nat) (e : MainTs.Engine) (j : Z) : bool :=
  forallb (fun col =>
             column_misses MainTs.width MainTs.height j col
               (cast_column MainTs.width MainTs.height MainTs.mapWidth MainTs.mapHeight
                  (MainTs.worldMap e) (MainTs.textures e) (MainTs.player e) fuel col))
          (range 0 MainTs.width).

(** The first column of the second engine has integer drawing limits with
    a ceiling of at least one row, and every later column misses the first
    byte of the frame (the red byte of the top left pixel). *)
Definition doom_top_left_check (fuel : nat) (e : Doom.Engine) : bool :=
  match strip_limits
          (cast_column Doom.width Doom.height Doom.mapWidth Doom.mapHeight
             (Doom.worldMap e) (Doom.textures e) (Doom.player e) fuel 0) with
  | Some (a, b) =>
      ((1 <=? a) && (a <=? Doom.height) && (-1 <=? b) && (b <=? Doom.height))%Z
  | None => false
  end
  && forallb (fun col =>
                column_misses Doom.width Doom.height 0 col
                  (cast_column Doom.width Doom.height Doom.mapWidth Doom.mapHeight
                     (Doom.worldMap e) (Doom.textures e) (Doom.player e) fuel col))
             (range 1 Doom.width).

(** The red byte the ceiling loop of a column stores, for the colour the
    call [k] of [Math.random()] picks. *)
Definition ceiling_red (e : Doom.Engine) (k : nat) : Z :=
  clamp8 (fst (fst (Doom.rgb_of (Doom.pick Doom.ceilingColors (Doom.randoms e k))))).

(** The value of an outcome under a function. *)
Definition outcome_map {A B : Type} (f : A -> B) (m : outcome A) : outcome B :=
  match m with
  | Ret a => Ret (f a)
  | Throw => Throw
  | OutOfFuel => OutOfFuel
  end.

(** ** Movement, as the specification names it *)

(** [this.worldMap[row][col] === 0]; a read that throws is not a
    traversable cell. *)
Definition traversable (w : Grid) (row col : num) : bool :=
  match get w row with
  | Some cells => is_zero_cell (get cells col)
  | None => false
  end.

(** The player stands in an empty cell:
    [worldMap[floor(y)][floor(x)] === 0]. *)
Definition in_empty_cell (w : Grid) (p : Player) : bool :=
  traversable w (floor (posY p)) (floor (posX p)).

(** The displacement is resolved axis by axis.  [targetX] and [newX] are
    the tested and the new abscissa, [targetY] and [newY] the tested and the
    new ordinate; the test of the ordinate reads the column of the abscissa
    the player has by then.  [c] is the completion of the handler. *)
Definition per_axis (w : Grid) (p : Player) (targetX newX targetY newY : num)
    (c : completion) : Prop :=
  let p' := player_of c in
  posX p' = (if traversable w (floor (posY p)) (floor targetX) then newX else posX p) /\
  posY p' = (if traversable w (floor targetY) (floor (posX p')) then newY else posY p) /\
  dirX p' = dirX p /\ dirY p' = dirY p /\
  planeX p' = planeX p /\ planeY p' = planeY p /\ weapon p' = weapon p.

(** The common shape of the eight movements: the test of the x axis and its
    assignment, then the test of the y axis and its assignment. *)
Definition two_axis_move (w : Grid) (p : Player) (targetX newX targetY newY : num)
    : completion :=
  when_empty w (floor (posY p)) (floor targetX) p (set_posX p newX) (fun p1 =>
  when_empty w (floor targetY) (floor (posX p1)) p1 (set_posY p1 newY) Normal).

(** [e1] is a step, [e2] the double step the engine of [src/src/main.ts]
    looks ahead; the double step is at most one square long. *)
Definition half_of (e1 e2 : num) : Prop :=
  is_finite e1 = true /\ is_finite e2 = true /\
  val e2 == 2 * val e1 /\ -1 <= val e2 <= 1.

(** The components of the direction are finite and at most 10 in size.  (The
    direction is a unit vector: it starts as (-1, 0) and only rotations
    change it.) *)
Definition dir_bounded (p : Player) : bool :=
  (abs (dirX p) <=? ofZ 10)%num && (abs (dirY p) <=? ofZ 10)%num.

(** ** Generated maps, as the specification names them *)

(** Every border cell holds the code 1 of the outer walls. *)
Definition border_walls (w h : Z) (m : Grid) : bool :=
  forallb (fun zy =>
    forallb (fun zx =>
      if on_border w h zx zy
      then match cell_at m zx zy with
           | Some v => (v =? 1)%Z
           | None => false
           end
      else true) (range 0 w)) (range 0 h).

(** The cell of the start position (15.5, 15.5) in a generated map. *)
Definition start_cell (g : outcome Grid) : option Z :=
  match g with
  | Ret m => cell_at m 15 15
  | _ => None
  end.

(** Every call of [Math.random()] returns a number of [[0, 1)]. *)
Definition valid_random (rnd : nat -> Q) : Prop := forall k, 0 <= rnd k < 1.

(** One of the calls returns a number [r] with
    [Math.floor(r * 28) + 2 = 15]. *)
Definition draws_15 (rnd : nat -> Q) : Prop :=
  exists k, Qfloor (rnd k * 28) = 13%Z.

(** What every step of the two generators keeps, once the outer walls
    stand: the shape of the map, the outer walls, and the empty start cell
    as long as no random pillar was drawn on it. *)
Definition gen_inv (rnd : nat -> Q) (m : Grid) : Prop :=
  wf_grid 32 32 m = true /\
  (forall zx zy, (0 <= zx < 32)%Z -> (0 <= zy < 32)%Z ->
                 on_border 32 32 zx zy = true -> cell_at m zx zy = Some 1%Z) /\
  (cell_at m 15 15 = Some 0%Z \/ draws_15 rnd).

(** ** Scenarios *)

(** A 4x4 map, walls around four empty squares, and a player who stands
    close to the west wall and faces north-west. *)
Definition grid4 : Grid :=
  [[1; 1; 1; 1]; [1; 0; 0; 1]; [1; 0; 0; 1]; [1; 1; 1; 1]]%Z.

Definition player_slide : Player :=
  {| posX := Fin (21 # 20); posY := Fin (3 # 2);
     dirX := Fin (-3 # 5); dirY := Fin (4 # 5);
     planeX := Fin (66 # 125); planeY := Fin (99 # 250); weapon := 0 |}.

(** A pseudo-random source that returns 0 at every call. *)
Definition rnd0 : nat -> Q := fun _ => 0.

(** The map of an outcome of a generator. *)
Definition map_of (g : outcome Grid) : Grid :=
  match g with
  | Ret m => m
  | _ => []
  end.

(** The player both constructors make: at (15.5, 15.5), facing (-1, 0),
    with the camera plane (0, 0.66) and the weapon 0. *)
Definition player0 : Player :=
  {| posX := Fin (31 # 2); posY := Fin (31 # 2);
     dirX := ofZ (-1); dirY := ofZ 0;
     planeX := ofZ 0; planeY := Fin (33 # 50); weapon := 0 |}.

(** The engine of [src/src/main.ts] after its constructor, when
    [Math.random()] returned 0 at every call of [generateLargeMap]. *)
Definition main_engine0 : MainTs.Engine :=
  {| MainTs.player := player0;
     MainTs.worldMap := map_of (MainTs.generateLargeMap rnd0);
     MainTs.textures := MainTs.generateTextures;
     MainTs.canvas := createImageData MainTs.width MainTs.height |}.

(** The second engine after its constructor, with the map [createDoomMap]
    makes when [Math.random()] returns 0 at every call, and with the eight
    textures of [src/src/main.ts] as texture set.  The next 1920 calls of
    [Math.random()] return 0, the later ones 1/2. *)
Definition doom_engine0 : Doom.Engine :=
  {| Doom.player := player0;
     Doom.worldMap := map_of (Doom.createDoomMap rnd0);
     Doom.textures := MainTs.generateTextures;
     Doom.weaponBob := ofZ 0;
     Doom.canvas := createImageData Doom.width Doom.height;
     Doom.randoms := fun k => if (k <? 1920)%nat then 0 else 1 # 2;
     Doom.drawn := 0 |}.

(** The same engine with a source that returns 0 at every call. *)
Definition doom_engine_const : Doom.Engine :=
  {| Doom.player := player0;
     Doom.worldMap := map_of (Doom.createDoomMap rnd0);
     Doom.textures := MainTs.generateTextures;
     Doom.weaponBob := ofZ 0;
     Doom.canvas := createImageData Doom.width Doom.height;
     Doom.randoms := rnd0;
     Doom.drawn := 0 |}.

(** A pseudo-random source that returns 27/56 at every call. *)
Definition rnd27 : nat -> Q := fun _ => 27 # 56.

(** The 3x3 map of the end-to-end scenario: walls of code 1 around one
    empty square. *)
Definition grid3 : Grid := [[1; 1; 1]; [1; 0; 1]; [1; 1; 1]]%Z.

(** The player of that scenario, at (1.5, 1.5) and facing (0, -1); the
    camera plane is any pair of finite numbers. *)
Definition player3 (px py : Q) (w : Z) : Player :=
  {| posX := Fin (3 # 2); posY := Fin (3 # 2);
     dirX := ofZ 0; dirY := ofZ (-1);
     planeX := Fin px; planeY := Fin py; weapon := w |}.

(** * Properties *)

Unset Implicit Arguments.

(** ** Numbers: the integers among them *)

Module NumFacts.

Lemma Qeqb_true (p q : Q) : Qeqb p q = true <-> p == q.
Proof.
  unfold Qeqb. rewrite Qeq_alt. destruct (p ?= q); split; congruence.
Qed.

Lemma Qltb_true (p q : Q) : Qltb p q = true <-> p < q.
Proof.
  unfold Qltb. rewrite Qlt_alt. destruct (p ?= q); split; congruence.
Qed.

Lemma Qleb_true (p q : Q) : Qleb p q = true <-> p <= q.
Proof.
  unfold Qleb. rewrite Qle_alt. destruct (p ?= q); split; congruence.
Qed.

Lemma Qeqb_inject (a b : Z) : Qeqb (inject_Z a) (inject_Z b) = (a =? b)%Z.
Proof.
  destruct (Z.eqb_spec a b) as [->|H].
  - apply Qeqb_true. reflexivity.
  - destruct (Qeqb _ _) eqn:E; [|reflexivity].
    apply Qeqb_true in E. apply (proj1 (inject_Z_injective a b)) in E. contradiction.
Qed.

Lemma Qltb_inject (a b : Z) : Qltb (inject_Z a) (inject_Z b) = (a <? b)%Z.
Proof.
  destruct (Z.ltb_spec a b) as [H|H].
  - apply Qltb_true. rewrite <- Zlt_Qlt. exact H.
  - destruct (Qltb _ _) eqn:E; [|reflexivity].
    apply Qltb_true in E. rewrite <- Zlt_Qlt in E. lia.
Qed.

Lemma Qleb_inject (a b : Z) : Qleb (inject_Z a) (inject_Z b) = (a <=? b)%Z.
Proof.
  destruct (Z.leb_spec a b) as [H|H].
  - apply Qleb_true. rewrite <- Zle_Qle. exact H.
  - destruct (Qleb _ _) eqn:E; [|reflexivity].
    apply Qleb_true in E. rewrite <- Zle_Qle in E. lia.
Qed.

Lemma Qred_inject (z : Z) : Qred (inject_Z z) = inject_Z z.
Proof.
  apply Qcanon.Qred_identity. simpl. apply Z.gcd_1_r.
Qed.

Lemma finite_inject (s : bool) (z : Z) : z <> 0%Z -> finite s (inject_Z z) = ofZ z.
Proof.
  intros H. unfold finite.
  change 0 with (inject_Z 0). rewrite Qeqb_inject.
  destruct (Z.eqb_spec z 0); [contradiction|].
  rewrite Qred_inject. reflexivity.
Qed.

Lemma finite_false_inject (z : Z) : finite false (inject_Z z) = ofZ z.
Proof.
  destruct (Z.eq_dec z 0) as [->|H]; [reflexivity|].
  apply finite_inject; assumption.
Qed.

Lemma finite_eq (s : bool) (p q : Q) : p == q -> finite s p = finite s q.
Proof.
  intros H. unfold finite.
  assert (E : Qeqb p 0 = Qeqb q 0).
  { destruct (Qeqb q 0) eqn:Eq.
    - apply Qeqb_true. rewrite H. apply Qeqb_true. exact Eq.
    - destruct (Qeqb p 0) eqn:Ep; [|reflexivity].
      apply Qeqb_true in Ep. rewrite H in Ep. apply Qeqb_true in Ep. congruence. }
  rewrite E. rewrite (Qred_complete _ _ H). reflexivity.
Qed.

Lemma ofZ_add (a b : Z) : (ofZ a + ofZ b)%num = ofZ (a + b).
Proof.
  transitivity (finite false (inject_Z (a + b))); [|apply finite_false_inject].
  unfold ofZ, add. simpl val.
  apply finite_eq. rewrite inject_Z_plus. reflexivity.
Qed.

Lemma ofZ_mul (a b : Z) : (0 <= a)%Z -> (0 <= b)%Z -> (ofZ a * ofZ b)%num = ofZ (a * b).
Proof.
  intros Ha Hb. rewrite <- (finite_false_inject (a * b)). unfold ofZ, mul. simpl.
  change 0 with (inject_Z 0). rewrite !Qltb_inject.
  destruct (Z.ltb_spec a 0); [lia|]. destruct (Z.ltb_spec b 0); [lia|]. simpl.
  rewrite andb_false_r. apply finite_eq.
  rewrite inject_Z_mult. reflexivity.
Qed.

Lemma ofZ_ltb (a b : Z) : (ofZ a <? ofZ b)%num = (a <? b)%Z.
Proof. apply Qltb_inject. Qed.

Lemma index_of_ofZ (z : Z) : index_of (ofZ z) = Some z.
Proof.
  unfold index_of, ofZ. rewrite Qfloor_Z, Qeqb_inject, Z.eqb_refl. reflexivity.
Qed.

Lemma get_ofZ (A : Type) (l : list A) (z : Z) :
  (0 <= z)%Z -> get l (ofZ z) = nth_error l (Z.to_nat z).
Proof.
  intros H. unfold get. rewrite index_of_ofZ.
  destruct (Z.ltb_spec z 0); [lia|reflexivity].
Qed.

(** Finite numbers and their values. *)

Lemma finite_cases (a : num) :
  is_finite a = true -> a = NegZero \/ exists q, a = Fin q.
Proof. destruct a; simpl; try discriminate; eauto. Qed.

Lemma finite_val (s : bool) (q : Q) :
  is_finite (finite s q) = true /\ val (finite s q) == q.
Proof.
  unfold finite. destruct (Qeqb q 0) eqn:E.
  - apply Qeqb_true in E. destruct s; simpl; split; auto; rewrite E; reflexivity.
  - split; [reflexivity|]. change (Qred q == q). apply Qred_correct.
Qed.

Lemma add_finite (a b : num) :
  is_finite a = true -> is_finite b = true ->
  is_finite (a + b)%num = true /\ val (a + b)%num == val a + val b.
Proof.
  intros Ha Hb.
  destruct (finite_cases a Ha) as [->|[qa ->]];
    destruct (finite_cases b Hb) as [->|[qb ->]]; unfold add;
    try apply finite_val.
  simpl. split; reflexivity.
Qed.

Lemma mul_finite (a b : num) :
  is_finite a = true -> is_finite b = true ->
  is_finite (a * b)%num = true /\ val (a * b)%num == val a * val b.
Proof.
  intros Ha Hb. unfold mul.
  destruct (finite_cases a Ha) as [->|[qa ->]];
    destruct (finite_cases b Hb) as [->|[qb ->]]; simpl;
    rewrite ?andb_false_r; simpl; apply finite_val.
Qed.

Lemma neg_finite (a : num) :
  is_finite a = true ->
  is_finite (- a)%num = true /\ val (- a)%num == - val a.
Proof.
  intros Ha. destruct (finite_cases a Ha) as [->|[q ->]].
  - split; reflexivity.
  - unfold neg. destruct (Qeqb q 0) eqn:E.
    + apply Qeqb_true in E. split; [reflexivity|].
      change (0 == - q). rewrite E. reflexivity.
    + split; [reflexivity|]. change (Qred (- q) == - q). apply Qred_correct.
Qed.

Lemma floor_index_finite (a : num) :
  is_finite a = true -> index_of (floor a) = Some (Qfloor (val a)).
Proof.
  intros Ha. destruct (finite_cases a Ha) as [->|[q ->]].
  - reflexivity.
  - apply index_of_ofZ.
Qed.

Lemma index_floor_finite (a : num) (z : Z) :
  index_of (floor a) = Some z -> is_finite a = true.
Proof. destruct a; simpl; try discriminate; reflexivity. Qed.

Lemma abs_leb (a : num) (k : Z) :
  (abs a <=? ofZ k)%num = true ->
  is_finite a = true /\ - inject_Z k <= val a <= inject_Z k.
Proof.
  destruct a as [q| | | |]; simpl; try discriminate.
  - intros H. apply Qleb_true in H.
    change (Qred (Qabs q) <= inject_Z k) in H. rewrite Qred_correct in H.
    split; [reflexivity|]. apply Qabs_Qle_condition. exact H.
  - intros H. apply (proj1 (Qleb_true 0 (inject_Z k))) in H.
    split; [reflexivity|]. split; [|exact H].
    apply (Qopp_le_compat 0) in H. exact H.
Qed.

(** The floor of a half step lies with the floor of the start or with the
    floor of the whole step. *)
Lemma Qfloor_lt_inject (q : Q) (z : Z) : q < inject_Z z -> (Qfloor q < z)%Z.
Proof.
  intros H. rewrite Zlt_Qlt. eapply Qle_lt_trans; [apply Qfloor_le|exact H].
Qed.

Lemma Qfloor_ge_inject (q : Q) (z : Z) : inject_Z z <= q -> (z <= Qfloor q)%Z.
Proof.
  intros H. rewrite <- (Qfloor_Z z). apply Qfloor_resp_le. exact H.
Qed.

Lemma Qfloor_between (x e1 e2 : Q) :
  e2 == 2 * e1 -> -1 <= e2 <= 1 ->
  Qfloor (x + e1) = Qfloor x \/ Qfloor (x + e1) = Qfloor (x + e2).
Proof.
  intros E [Hlo Hhi].
  pose proof (Qfloor_le x) as Hx0. pose proof (Qlt_floor x) as Hx1.
  rewrite inject_Z_plus in Hx1. change (inject_Z 1) with 1 in Hx1.
  destruct (Qlt_le_dec e1 0) as [Hneg|Hpos].
  - assert (H12 : (Qfloor (x + e2) <= Qfloor (x + e1))%Z)
      by (apply Qfloor_resp_le; Lqa.lra).
    assert (H10 : (Qfloor (x + e1) <= Qfloor x)%Z)
      by (apply Qfloor_resp_le; Lqa.lra).
    assert (H02 : (Qfloor x - 1 <= Qfloor (x + e2))%Z).
    { apply Qfloor_ge_inject. unfold Z.sub.
      rewrite inject_Z_plus, inject_Z_opp. change (inject_Z 1) with 1. Lqa.lra. }
    lia.
  - assert (H12 : (Qfloor (x + e1) <= Qfloor (x + e2))%Z)
      by (apply Qfloor_resp_le; Lqa.lra).
    assert (H10 : (Qfloor x <= Qfloor (x + e1))%Z)
      by (apply Qfloor_resp_le; Lqa.lra).
    assert (H02 : (Qfloor (x + e2) < Qfloor x + 2)%Z).
    { apply Qfloor_lt_inject. rewrite inject_Z_plus.
      change (inject_Z 2) with 2. Lqa.lra. }
    lia.
Qed.

End NumFacts.

(** ** The walk of a ray *)

Module Walk.
Import NumFacts.

Lemma range_In (a b z : Z) : In z (range a b) <-> (a <= z < b)%Z.
Proof.
  unfold range. rewrite in_map_iff. split.
  - intros [k [<- H]]. apply in_seq in H. lia.
  - intros H. exists (Z.to_nat (z - a)). split; [lia|]. apply in_seq. lia.
Qed.

(** A number that is an array index is an integer for the arithmetic and
    the comparisons of the walk. *)
Lemma index_of_cases (a : num) (z : Z) :
  index_of a = Some z ->
  (a = NegZero /\ z = 0%Z) \/ (exists q, a = Fin q /\ q == inject_Z z).
Proof.
  destruct a as [q| | | |]; simpl; try discriminate.
  - destruct (Qeqb _ q) eqn:E; [|discriminate].
    intros [= <-]. right. exists q. split; [reflexivity|].
    apply Qeqb_true in E. symmetry. exact E.
  - intros [= <-]. left. split; reflexivity.
Qed.

Lemma index_of_add (a : num) (z k : Z) :
  index_of a = Some z -> (a + ofZ k)%num = ofZ (z + k).
Proof.
  intros H. destruct (index_of_cases _ _ H) as [[-> ->]|[q [-> E]]].
  - rewrite Z.add_0_l.
    transitivity (finite false (inject_Z k)); [|apply finite_false_inject].
    unfold add, ofZ. simpl val. apply finite_eq. ring.
  - transitivity (finite false (inject_Z (z + k))); [|apply finite_false_inject].
    unfold add, ofZ. simpl val. apply finite_eq.
    rewrite E, inject_Z_plus. reflexivity.
Qed.

Lemma index_of_ltb (a : num) (z k : Z) :
  index_of a = Some z -> (a <? ofZ k)%num = (z <? k)%Z.
Proof.
  intros H. destruct (index_of_cases _ _ H) as [[-> ->]|[q [-> E]]].
  - apply (Qltb_inject 0 k).
  - unfold ltb, ofZ. simpl val. rewrite <- Qltb_inject.
    unfold Qltb. rewrite E. reflexivity.
Qed.

Lemma index_of_geb (a : num) (z k : Z) :
  index_of a = Some z -> (a >=? ofZ k)%num = (k <=? z)%Z.
Proof.
  intros H. destruct (index_of_cases _ _ H) as [[-> ->]|[q [-> E]]].
  - apply (Qleb_inject k 0).
  - unfold geb, leb, ofZ. simpl val. rewrite <- Qleb_inject.
    unfold Qleb. rewrite E. reflexivity.
Qed.

Lemma index_of_floor (a : num) :
  (exists z, index_of (floor a) = Some z) \/ floor a = PInf \/ floor a = NInf \/ floor a = NaN.
Proof.
  destruct a as [q| | | |]; simpl; auto.
  - left. exists (Qfloor q). apply index_of_ofZ.
  - left. exists 0%Z. reflexivity.
Qed.

Section Termination.

Variables mapWidth mapHeight : Z.
Variable worldMap : Grid.
Variable player : Player.
Variable cameraX : num.

Local Notation "'advance'" := (dda_advance player cameraX).
Local Notation "'hit'" := (dda_hit mapWidth mapHeight worldMap).
Local Notation "'loop'" := (dda_loop mapWidth mapHeight worldMap player cameraX).
Local Notation "'sX'" := (stepX player cameraX).
Local Notation "'sY'" := (stepY player cameraX).

(** The loop under an invariant [P] and a measure [m] that every iteration
    without a hit decreases. *)
Lemma dda_loop_rule (P : Ray -> Prop) (m : Ray -> nat) :
  (forall r, P r -> (1 <= m r)%nat) ->
  (forall r, P r ->
     hit (advance r) = Ret true \/
     (hit (advance r) = Ret false /\ P (advance r) /\ (m (advance r) < m r)%nat)) ->
  forall fuel r, P r -> (m r <= fuel)%nat ->
  exists n r0, P r0 /\ hit (advance r0) = Ret true /\
               loop fuel r = Ret (n, advance r0) /\ (n <= m r)%nat.
Proof.
  intros Hpos Hstep. induction fuel as [|fuel IH]; intros r HP Hm.
  - specialize (Hpos r HP). lia.
  - simpl. destruct (Hstep r HP) as [Hh | [Hh [HP' Hlt]]].
    + exists 1%nat, r. rewrite Hh. simpl. repeat split; auto.
    + rewrite Hh. simpl.
      destruct (IH (advance r) HP') as [n [r0 [HP0 [Hh0 [Hl Hn]]]]]; [lia|].
      exists (S n), r0. rewrite Hl. simpl. repeat split; auto. lia.
Qed.

Lemma stepX_cases :
  (sX = ofZ (-1) /\ (sX <? ofZ 0)%num = true) \/ (sX = ofZ 1 /\ (sX <? ofZ 0)%num = false).
Proof.
  unfold stepX. destruct (rayDirX player cameraX <? ofZ 0)%num; [left|right];
    split; reflexivity.
Qed.

Lemma stepY_cases :
  (sY = ofZ (-1) /\ (sY <? ofZ 0)%num = true) \/ (sY = ofZ 1 /\ (sY <? ofZ 0)%num = false).
Proof.
  unfold stepY. destruct (rayDirY player cameraX <? ofZ 0)%num; [left|right];
    split; reflexivity.
Qed.

(** One step moves the ray to a neighbouring square, along its direction. *)
Lemma advance_cell (r : Ray) (zx zy : Z) :
  ray_at r zx zy ->
  exists zx' zy',
    ray_at (advance r) zx' zy' /\
    ((zy' = zy /\ (zx' = zx - 1 \/ zx' = zx + 1) /\
      exit_dist sX mapWidth zx' = exit_dist sX mapWidth zx - 1) \/
     (zx' = zx /\ (zy' = zy - 1 \/ zy' = zy + 1) /\
      exit_dist sY mapHeight zy' = exit_dist sY mapHeight zy - 1))%Z.
Proof.
  intros [Hx Hy]. unfold dda_advance.
  destruct (sideDistX r <? sideDistY r)%num.
  - destruct stepX_cases as [[E L]|[E L]]; unfold exit_dist; rewrite L, E;
      [exists (zx + -1)%Z, zy | exists (zx + 1)%Z, zy]; unfold ray_at; simpl;
      rewrite (index_of_add _ _ _ Hx), index_of_ofZ; (split; [auto|left; lia]).
  - destruct stepY_cases as [[E L]|[E L]]; unfold exit_dist; rewrite L, E;
      [exists zx, (zy + -1)%Z | exists zx, (zy + 1)%Z]; unfold ray_at; simpl;
      rewrite (index_of_add _ _ _ Hy), index_of_ofZ; (split; [auto|right; lia]).
Qed.

Lemma in_bounds_cell (r : Ray) (zx zy : Z) :
  ray_at r zx zy ->
  in_bounds mapWidth mapHeight r
  = ((0 <=? zx) && (zx <? mapWidth) && (0 <=? zy) && (zy <? mapHeight))%Z.
Proof.
  intros [Hx Hy]. unfold in_bounds.
  rewrite (index_of_geb _ _ _ Hx), (index_of_ltb _ _ _ Hx),
          (index_of_geb _ _ _ Hy), (index_of_ltb _ _ _ Hy). reflexivity.
Qed.

Lemma get_index (A : Type) (l : list A) (a : num) (z : Z) :
  index_of a = Some z -> (0 <= z)%Z -> get l a = nth_error l (Z.to_nat z).
Proof.
  intros H Hz. unfold get. rewrite H. destruct (Z.ltb_spec z 0); [lia|reflexivity].
Qed.

Lemma get2_cell (r : Ray) (zx zy : Z) :
  ray_at r zx zy -> (0 <= zx)%Z -> (0 <= zy < Z.of_nat (length worldMap))%Z ->
  get2 worldMap (mapY r) (mapX r) = Ret (cell_at worldMap zx zy).
Proof.
  intros [Hx Hy] Hzx Hzy. unfold get2, cell_at.
  rewrite (get_index _ _ _ _ Hy) by lia.
  destruct (Z.ltb_spec zx 0); [lia|]. destruct (Z.ltb_spec zy 0); [lia|]. simpl.
  destruct (nth_error worldMap (Z.to_nat zy)) as [row|] eqn:E.
  - rewrite (get_index _ _ _ _ Hx) by lia. reflexivity.
  - apply nth_error_None in E. lia.
Qed.

Lemma wf_grid_cell (zx zy : Z) :
  wf_grid mapWidth mapHeight worldMap = true ->
  (0 <= zx < mapWidth)%Z -> (0 <= zy < mapHeight)%Z ->
  exists v, cell_at worldMap zx zy = Some v.
Proof.
  unfold wf_grid. intros H Hx Hy. apply andb_prop in H. destruct H as [Hl Hr].
  apply Z.eqb_eq in Hl. rewrite forallb_forall in Hr.
  unfold cell_at.
  destruct (Z.ltb_spec zx 0); [lia|]. destruct (Z.ltb_spec zy 0); [lia|]. simpl.
  destruct (nth_error worldMap (Z.to_nat zy)) as [row|] eqn:E.
  - specialize (Hr row (nth_error_In _ _ E)). apply Z.eqb_eq in Hr.
    destruct (nth_error row (Z.to_nat zx)) as [v|] eqn:E'; [eauto|].
    apply nth_error_None in E'. lia.
  - apply nth_error_None in E. lia.
Qed.

Lemma hit_outside (r : Ray) (zx zy : Z) :
  ray_at r zx zy ->
  ((0 <=? zx) && (zx <? mapWidth) && (0 <=? zy) && (zy <? mapHeight))%Z = false ->
  hit r = Ret true.
Proof.
  intros Hr Hb. unfold dda_hit. rewrite (in_bounds_cell _ _ _ Hr), Hb. reflexivity.
Qed.

Lemma hit_inside (r : Ray) (zx zy : Z) :
  wf_grid mapWidth mapHeight worldMap = true ->
  ray_at r zx zy ->
  (0 <= zx < mapWidth)%Z -> (0 <= zy < mapHeight)%Z ->
  exists v, cell_at worldMap zx zy = Some v /\
            get2 worldMap (mapY r) (mapX r) = Ret (Some v) /\
            in_bounds mapWidth mapHeight r = true /\
            hit r = Ret (0 <? v)%Z.
Proof.
  intros Hwf Hr Hx Hy.
  destruct (wf_grid_cell zx zy Hwf Hx Hy) as [v Hv]. exists v.
  assert (Hlen : Z.of_nat (length worldMap) = mapHeight).
  { unfold wf_grid in Hwf. apply andb_prop in Hwf. apply Z.eqb_eq. tauto. }
  assert (Hg : get2 worldMap (mapY r) (mapX r) = Ret (Some v)).
  { rewrite (get2_cell r zx zy Hr) by lia. rewrite Hv. reflexivity. }
  assert (Hb : in_bounds mapWidth mapHeight r = true).
  { rewrite (in_bounds_cell _ _ _ Hr).
    destruct (Z.leb_spec 0 zx); [|lia]. destruct (Z.ltb_spec zx mapWidth); [|lia].
    destruct (Z.leb_spec 0 zy); [|lia]. destruct (Z.ltb_spec zy mapHeight); [|lia].
    reflexivity. }
  repeat split; auto.
  unfold dda_hit. rewrite Hb, Hg. reflexivity.
Qed.

(** The square of the player, when the bounds test of the code accepts
    it. *)
Lemma init_cell (lo hx hy : Z) :
  ((floor (posX player) >=? ofZ lo) && (floor (posX player) <? ofZ hx)
   && (floor (posY player) >=? ofZ lo) && (floor (posY player) <? ofZ hy))%num = true ->
  exists zx zy, ray_at (ray_init player cameraX) zx zy /\
                (lo <= zx < hx)%Z /\ (lo <= zy < hy)%Z.
Proof.
  intros H. repeat (apply andb_prop in H; destruct H as [H ?]).
  destruct (index_of_floor (posX player)) as [[zx Hx]|Hx];
    [|destruct Hx as [Hx|[Hx|Hx]]; rewrite Hx in *; discriminate].
  destruct (index_of_floor (posY player)) as [[zy Hy]|Hy];
    [|destruct Hy as [Hy|[Hy|Hy]]; rewrite Hy in *; discriminate].
  exists zx, zy. split; [split; assumption|].
  rewrite (index_of_geb _ _ _ Hx) in H. rewrite (index_of_ltb _ _ _ Hx) in H2.
  rewrite (index_of_geb _ _ _ Hy) in H1. rewrite (index_of_ltb _ _ _ Hy) in H0.
  lia.
Qed.

(** The measure of the walk: the steps left before the ray is out of the
    map. *)
Lemma exit_dist_bounds (s : num) (bound z : Z) :
  (0 <= z < bound)%Z -> (1 <= exit_dist s bound z <= bound)%Z.
Proof. intros H. unfold exit_dist. destruct (s <? ofZ 0)%num; lia. Qed.

(** C3. For every map of [mapHeight] rows of [mapWidth] cells, every
    player whose square is inside the bounds of the map and every ray
    (degenerate or not), the while loop of the walk terminates, after at
    most [mapWidth + mapHeight] iterations. *)
Theorem C3_dda_terminates :
  wf_grid mapWidth mapHeight worldMap = true ->
  in_bounds mapWidth mapHeight (ray_init player cameraX) = true ->
  forall fuel, (Z.to_nat (mapWidth + mapHeight) <= fuel)%nat ->
  exists n r, loop fuel (ray_init player cameraX) = Ret (n, r) /\
              (Z.of_nat n <= mapWidth + mapHeight)%Z.
Proof.
  intros Hwf Hin fuel Hfuel.
  destruct (init_cell 0 mapWidth mapHeight Hin) as [zx0 [zy0 [H0 [Hx0 Hy0]]]].
  pose (P := fun r => exists zx zy, ray_at r zx zy /\
                        (0 <= zx < mapWidth)%Z /\ (0 <= zy < mapHeight)%Z).
  pose (m := fun r => match index_of (mapX r), index_of (mapY r) with
                      | Some zx, Some zy =>
                          Z.to_nat (exit_dist sX mapWidth zx + exit_dist sY mapHeight zy - 1)
                      | _, _ => O
                      end).
  assert (Hm : forall r zx zy, ray_at r zx zy ->
             m r = Z.to_nat (exit_dist sX mapWidth zx + exit_dist sY mapHeight zy - 1)).
  { intros r zx zy [Hx Hy]. unfold m. rewrite Hx, Hy. reflexivity. }
  destruct (dda_loop_rule P m) with (fuel := fuel) (r := ray_init player cameraX)
    as [n [r0 [_ [_ [Hl Hn]]]]].
  - intros r [zx [zy [Hr [Hx Hy]]]]. rewrite (Hm _ _ _ Hr).
    pose proof (exit_dist_bounds sX mapWidth zx Hx).
    pose proof (exit_dist_bounds sY mapHeight zy Hy). lia.
  - intros r [zx [zy [Hr [Hx Hy]]]].
    destruct (advance_cell r zx zy Hr) as [zx' [zy' [Hr' Hmove]]].
    destruct ((0 <=? zx') && (zx' <? mapWidth) && (0 <=? zy') && (zy' <? mapHeight))%Z eqn:Hb.
    + assert (Hx' : (0 <= zx' < mapWidth)%Z) by lia.
      assert (Hy' : (0 <= zy' < mapHeight)%Z) by lia.
      destruct (hit_inside _ zx' zy' Hwf Hr' Hx' Hy') as [v [_ [_ [_ Hh]]]].
      rewrite Hh. destruct (0 <? v)%Z; [left; reflexivity|right].
      split; [reflexivity|]. split; [exists zx', zy'; auto|].
      rewrite (Hm _ _ _ Hr), (Hm _ _ _ Hr').
      pose proof (exit_dist_bounds sX mapWidth zx' Hx').
      pose proof (exit_dist_bounds sY mapHeight zy' Hy').
      pose proof (exit_dist_bounds sX mapWidth zx Hx).
      pose proof (exit_dist_bounds sY mapHeight zy Hy).
      destruct Hmove as [[-> [_ E]]|[-> [_ E]]]; lia.
    + left. exact (hit_outside _ _ _ Hr' Hb).
  - exists zx0, zy0. auto.
  - rewrite (Hm _ _ _ H0).
    pose proof (exit_dist_bounds sX mapWidth zx0 Hx0).
    pose proof (exit_dist_bounds sY mapHeight zy0 Hy0). lia.
  - exists n, (advance r0). split; [exact Hl|].
    rewrite (Hm _ _ _ H0) in Hn.
    pose proof (exit_dist_bounds sX mapWidth zx0 Hx0).
    pose proof (exit_dist_bounds sY mapHeight zy0 Hy0). lia.
Qed.

Lemma sealed_border (zx zy : Z) :
  sealed mapWidth mapHeight worldMap = true ->
  (0 <= zx < mapWidth)%Z -> (0 <= zy < mapHeight)%Z ->
  on_border mapWidth mapHeight zx zy = true ->
  exists v, cell_at worldMap zx zy = Some v /\ v <> 0%Z.
Proof.
  unfold sealed. intros H Hx Hy Hb. rewrite forallb_forall in H.
  specialize (H zy (proj2 (range_In 0 mapHeight zy) Hy)).
  rewrite forallb_forall in H.
  specialize (H zx (proj2 (range_In 0 mapWidth zx) Hx)).
  rewrite Hb in H. destruct (cell_at worldMap zx zy) as [v|]; [|discriminate].
  exists v. split; [reflexivity|]. intros ->. discriminate.
Qed.

Lemma nonneg_cell (zx zy v : Z) :
  nonneg_cells worldMap = true -> cell_at worldMap zx zy = Some v -> (0 <= v)%Z.
Proof.
  unfold nonneg_cells, cell_at. intros H Hc. rewrite forallb_forall in H.
  destruct ((zx <? 0) || (zy <? 0))%Z; [discriminate|].
  destruct (nth_error worldMap (Z.to_nat zy)) as [row|] eqn:E; [|discriminate].
  specialize (H row (nth_error_In _ _ E)). rewrite forallb_forall in H.
  specialize (H v (nth_error_In _ _ Hc)). lia.
Qed.

(** C2. In a sealed map, for a player whose square is not on the border and
    for every ray (every screen column), the walk ends in a square inside
    the bounds that holds a wall, and the read [this.worldMap[mapY][mapX]]
    of the texture lookup that follows is a read of that cell. *)
Theorem C2_walk_ends_inside :
  wf_grid mapWidth mapHeight worldMap = true ->
  nonneg_cells worldMap = true ->
  sealed mapWidth mapHeight worldMap = true ->
  strictly_inside mapWidth mapHeight player = true ->
  forall fuel, (Z.to_nat (mapWidth + mapHeight) <= fuel)%nat ->
  exists n r zx zy v,
    loop fuel (ray_init player cameraX) = Ret (n, r) /\
    in_bounds mapWidth mapHeight r = true /\
    ray_at r zx zy /\ (0 <= zx < mapWidth)%Z /\ (0 <= zy < mapHeight)%Z /\
    get2 worldMap (mapY r) (mapX r) = Ret (Some v) /\
    cell_at worldMap zx zy = Some v /\ (0 < v)%Z.
Proof.
  intros Hwf Hnn Hs Hin fuel Hfuel.
  destruct (init_cell 1 (mapWidth - 1) (mapHeight - 1) Hin) as [zx0 [zy0 [H0 [Hx0 Hy0]]]].
  pose (P := fun r => exists zx zy, ray_at r zx zy /\
                        (1 <= zx < mapWidth - 1)%Z /\ (1 <= zy < mapHeight - 1)%Z).
  pose (m := fun r => match index_of (mapX r), index_of (mapY r) with
                      | Some zx, Some zy =>
                          Z.to_nat (exit_dist sX mapWidth zx + exit_dist sY mapHeight zy - 1)
                      | _, _ => O
                      end).
  assert (Hm : forall r zx zy, ray_at r zx zy ->
             m r = Z.to_nat (exit_dist sX mapWidth zx + exit_dist sY mapHeight zy - 1)).
  { intros r zx zy [Hx Hy]. unfold m. rewrite Hx, Hy. reflexivity. }
  assert (Hnext : forall r, P r -> exists zx' zy' v,
             ray_at (advance r) zx' zy' /\
             (0 <= zx' < mapWidth)%Z /\ (0 <= zy' < mapHeight)%Z /\
             cell_at worldMap zx' zy' = Some v /\
             get2 worldMap (mapY (advance r)) (mapX (advance r)) = Ret (Some v) /\
             in_bounds mapWidth mapHeight (advance r) = true /\
             hit (advance r) = Ret (0 <? v)%Z /\
             (m (advance r) < m r \/ m r = O)%nat).
  { intros r [zx [zy [Hr [Hx Hy]]]].
    destruct (advance_cell r zx zy Hr) as [zx' [zy' [Hr' Hmove]]].
    assert (Hx' : (0 <= zx' < mapWidth)%Z) by lia.
    assert (Hy' : (0 <= zy' < mapHeight)%Z) by lia.
    destruct (hit_inside _ zx' zy' Hwf Hr' Hx' Hy') as [v [Hc [Hg [Hb Hh]]]].
    exists zx', zy', v. repeat (split; [assumption|]).
    left. rewrite (Hm _ _ _ Hr), (Hm _ _ _ Hr').
    pose proof (exit_dist_bounds sX mapWidth zx' Hx').
    pose proof (exit_dist_bounds sY mapHeight zy' Hy').
    assert (Hx1 : (0 <= zx < mapWidth)%Z) by lia.
    assert (Hy1 : (0 <= zy < mapHeight)%Z) by lia.
    pose proof (exit_dist_bounds sX mapWidth zx Hx1).
    pose proof (exit_dist_bounds sY mapHeight zy Hy1).
    destruct Hmove as [[-> [_ E]]|[-> [_ E]]]; lia. }
  destruct (dda_loop_rule P m) with (fuel := fuel) (r := ray_init player cameraX)
    as [n [r0 [HP0 [Hh0 [Hl Hn]]]]].
  - intros r [zx [zy [Hr [Hx Hy]]]]. rewrite (Hm _ _ _ Hr).
    assert (Hx1 : (0 <= zx < mapWidth)%Z) by lia.
    assert (Hy1 : (0 <= zy < mapHeight)%Z) by lia.
    pose proof (exit_dist_bounds sX mapWidth zx Hx1).
    pose proof (exit_dist_bounds sY mapHeight zy Hy1). lia.
  - intros r HP.
    destruct (Hnext r HP) as [zx' [zy' [v [Hr' [Hx' [Hy' [Hc [_ [_ [Hh Hdec]]]]]]]]]].
    rewrite Hh. destruct (Z.ltb_spec 0 v) as [Hv|Hv]; [left; reflexivity|right].
    split; [reflexivity|]. split.
    + exists zx', zy'. split; [assumption|].
      pose proof (nonneg_cell _ _ _ Hnn Hc) as Hv0.
      assert (v = 0%Z) by lia. subst v.
      destruct (on_border mapWidth mapHeight zx' zy') eqn:Hb.
      * destruct (sealed_border zx' zy' Hs Hx' Hy' Hb) as [v' [Hc' Hne]].
        congruence.
      * unfold on_border in Hb. lia.
    + destruct Hdec as [Hdec|Hz]; [exact Hdec|].
      destruct HP as [zx [zy [Hr [Hx Hy]]]]. rewrite (Hm _ _ _ Hr) in Hz.
      assert (Hx1 : (0 <= zx < mapWidth)%Z) by lia.
      assert (Hy1 : (0 <= zy < mapHeight)%Z) by lia.
      pose proof (exit_dist_bounds sX mapWidth zx Hx1).
      pose proof (exit_dist_bounds sY mapHeight zy Hy1). lia.
  - exists zx0, zy0. auto.
  - rewrite (Hm _ _ _ H0).
    assert (Hx1 : (0 <= zx0 < mapWidth)%Z) by lia.
    assert (Hy1 : (0 <= zy0 < mapHeight)%Z) by lia.
    pose proof (exit_dist_bounds sX mapWidth zx0 Hx1).
    pose proof (exit_dist_bounds sY mapHeight zy0 Hy1). lia.
  - destruct (Hnext r0 HP0) as [zx' [zy' [v [Hr' [Hx' [Hy' [Hc [Hg [Hb [Hh _]]]]]]]]]].
    exists n, (advance r0), zx', zy', v. repeat (split; [assumption|]).
    rewrite Hh in Hh0. injection Hh0 as Hh0. lia.
Qed.

End Termination.

Lemma C3_witness :
  wf_grid 3 3 grid3 = true /\
  in_bounds 3 3 (ray_init (player3 0 0 0) (ofZ 0)) = true /\
  exists n r,
    dda_loop 3 3 grid3 (player3 0 0 0) (ofZ 0) 6 (ray_init (player3 0 0 0) (ofZ 0))
    = Ret (n, r) /\ (Z.of_nat n <= 3 + 3)%Z.
Proof.
  split; [reflexivity|]. split; [reflexivity|].
  apply (C3_dda_terminates 3 3 grid3 (player3 0 0 0) (ofZ 0));
    [reflexivity|reflexivity|apply le_n].
Defined.

Lemma C2_witness :
  wf_grid 3 3 grid3 = true /\ nonneg_cells grid3 = true /\
  sealed 3 3 grid3 = true /\ strictly_inside 3 3 (player3 0 0 0) = true /\
  exists n r zx zy v,
    dda_loop 3 3 grid3 (player3 0 0 0) (ofZ 0) 6 (ray_init (player3 0 0 0) (ofZ 0))
    = Ret (n, r) /\
    in_bounds 3 3 r = true /\
    ray_at r zx zy /\ (0 <= zx < 3)%Z /\ (0 <= zy < 3)%Z /\
    get2 grid3 (mapY r) (mapX r) = Ret (Some v) /\
    cell_at grid3 zx zy = Some v /\ (0 < v)%Z.
Proof.
  split; [reflexivity|]. split; [reflexivity|]. split; [reflexivity|].
  split; [reflexivity|].
  apply (C2_walk_ends_inside 3 3 grid3 (player3 0 0 0) (ofZ 0));
    [reflexivity|reflexivity|reflexivity|reflexivity|apply le_n].
Defined.

End Walk.

(** ** The end-to-end scenario of the 3x3 map *)

Module Scenario.
Import NumFacts.

Lemma mul_fin_zero (q : Q) : exists s, (Fin q * ofZ 0)%num = signed_zero s.
Proof.
  exists (Qltb q 0). unfold mul, ofZ. simpl.
  rewrite andb_false_r. simpl. rewrite xorb_false_r.
  unfold finite.
  assert (H : Qeqb (q * inject_Z 0) 0 = true).
  { apply Qeqb_true. change (inject_Z 0) with 0. ring. }
  rewrite H. reflexivity.
Qed.

(** With [cameraX = 0] the ray has the direction of the player. *)
Lemma ray_straight (px py : Q) (w : Z) :
  rayDirX (player3 px py w) (ofZ 0) = ofZ 0 /\
  rayDirY (player3 px py w) (ofZ 0) = ofZ (-1).
Proof.
  unfold rayDirX, rayDirY, player3.
  simpl dirX. simpl dirY. simpl planeX. simpl planeY.
  destruct (mul_fin_zero px) as [sx ->]. destruct (mul_fin_zero py) as [sy ->].
  split; [destruct sx|destruct sy]; reflexivity.
Qed.

(** C5. On the 3x3 map with walls of code 1 around an empty centre, for the
    player at (1.5, 1.5) facing (0, -1), the ray of [cameraX = 0] (the
    column 512 of the 1024 columns) has the direction (0, -1); its walk
    makes one step and hits the square (1, 0) with [side = 1], and the
    perpendicular distance of the wall is 1/2. *)
Theorem C5_straight_ray_hits_1_0 (px py : Q) (w : Z) (fuel : nat) :
  cameraX_of MainTs.width 512 = ofZ 0 /\
  rayDirX (player3 px py w) (ofZ 0) = ofZ 0 /\
  rayDirY (player3 px py w) (ofZ 0) = ofZ (-1) /\
  exists r,
    dda_loop 3 3 grid3 (player3 px py w) (ofZ 0) (S fuel)
      (ray_init (player3 px py w) (ofZ 0)) = Ret (1%nat, r) /\
    mapX r = ofZ 1 /\ mapY r = ofZ 0 /\ side r = 1%Z /\
    perpWallDist_of (player3 px py w) (ofZ 0) r = Fin (1 # 2).
Proof.
  destruct (ray_straight px py w) as [HX HY].
  split; [vm_compute; reflexivity|]. split; [exact HX|]. split; [exact HY|].
  exists {| mapX := ofZ 1; mapY := ofZ 0;
            sideDistX := PInf; sideDistY := Fin (3 # 2); side := 1 |}.
  cbn [dda_loop].
  unfold dda_advance, dda_hit, in_bounds, ray_init, perpWallDist_of,
    deltaDistX, deltaDistY, stepX, stepY.
  rewrite !HX, !HY. vm_compute. repeat split; reflexivity.
Qed.

End Scenario.

(** ** Rotation keeps the camera plane perpendicular and of the same length *)

Module RotationFacts.
Import Rotation.

Lemma cos2_sin2 (a : R) : (cos a * cos a + sin a * sin a = 1)%R.
Proof.
  pose proof (sin2_cos2 a) as H. unfold Rsqr in H. Lra.lra.
Qed.

Lemma rotate_dot (a : R) (p : Pose) : dot (rotate a p) = dot p.
Proof.
  unfold dot, rotate. simpl.
  transitivity ((dirX p * planeX p + dirY p * planeY p)
                * (cos a * cos a + sin a * sin a))%R; [ring|].
  rewrite cos2_sin2. ring.
Qed.

Lemma rotate_plane_length (a : R) (p : Pose) :
  plane_length (rotate a p) = plane_length p.
Proof.
  unfold plane_length, rotate. simpl. f_equal.
  transitivity ((planeX p * planeX p + planeY p * planeY p)
                * (cos a * cos a + sin a * sin a))%R; [ring|].
  rewrite cos2_sin2. ring.
Qed.

(** A rotation keeps the length of the direction too: the direction, (-1, 0)
    at the start, stays a unit vector. *)
Lemma rotate_dir_length (a : R) (p : Pose) :
  (dirX (rotate a p) * dirX (rotate a p) + dirY (rotate a p) * dirY (rotate a p)
   = dirX p * dirX p + dirY p * dirY p)%R.
Proof.
  unfold rotate. simpl.
  transitivity ((dirX p * dirX p + dirY p * dirY p)
                * (cos a * cos a + sin a * sin a))%R; [ring|].
  rewrite cos2_sin2. ring.
Qed.

(** C6. For every pose, one rotation step to the left or to the right (the
    angle [rotSpeed], applied to the direction and to the camera plane)
    keeps, over the real numbers, the dot product of direction and camera
    plane (so a dot product 0 stays 0) and the length of the camera
    plane. *)
Theorem C6_rotation_preserves (p : Pose) :
  dot (rotate_left p) = dot p /\
  plane_length (rotate_left p) = plane_length p /\
  dot (rotate_right p) = dot p /\
  plane_length (rotate_right p) = plane_length p.
Proof.
  unfold rotate_left, rotate_right.
  repeat split; auto using rotate_dot, rotate_plane_length.
Qed.

End RotationFacts.

(** ** The maze map: removing a pellet *)

Module GameMapFacts.
Import GameMap.

Lemma findIndex_spec (A : Type) (f : A -> bool) (l : list A) :
  (findIndex f l = (-1)%Z /\ forall a, In a l -> f a = false) \/
  (exists l1 a l2, l = l1 ++ a :: l2 /\ f a = true /\
                   (forall q, In q l1 -> f q = false) /\
                   findIndex f l = Z.of_nat (length l1)).
Proof.
  induction l as [|a l IH]; simpl.
  - left. split; [reflexivity|]. intros a [].
  - destruct (f a) eqn:Fa.
    + right. exists [], a, l. simpl. repeat split; auto. intros q [].
    + destruct IH as [[E H]|[l1 [b [l2 [E [Fb [H Hi]]]]]]].
      * left. rewrite E. simpl. split; [reflexivity|].
        intros q [<-|Hq]; auto.
      * right. exists (a :: l1), b, l2. rewrite Hi. simpl length.
        destruct (Z.eqb_spec (Z.of_nat (length l1)) (-1)); [lia|].
        repeat split; auto.
        -- rewrite E. reflexivity.
        -- intros q [<-|Hq]; auto.
        -- lia.
Qed.

Lemma splice1_app (A : Type) (l1 : list A) (a : A) (l2 : list A) :
  splice1 (l1 ++ a :: l2) (length l1) = l1 ++ l2.
Proof.
  induction l1 as [|b l1 IH]; simpl; [reflexivity|]. rewrite IH. reflexivity.
Qed.


End GameMapFacts.

(** ** Movement *)

Module Movement.
Import NumFacts.

Ltac step_cases :=
  repeat match goal with
         | |- context [match get ?w ?r with _ => _ end] => destruct (get w r) eqn:?
         | |- context [if is_zero_cell ?c then _ else _] => destruct (is_zero_cell c) eqn:?
         | H : Some _ = Some _ |- _ => injection H as H; subst
         | H : ?a = true, H' : ?a = false |- _ => rewrite H in H'; discriminate
         end; simpl in *.

Ltac solve_per_axis :=
  intros; unfold per_axis, when_empty, traversable, player_of, set_posX, set_posY;
  simpl; step_cases; try congruence; repeat split; step_cases; try congruence.

Section PerAxis.

Variable w : Grid.
Variable p : Player.
Hypothesis row_exists : get w (floor (posY p)) <> None.

Lemma main_forward_per_axis :
  per_axis w p
    (posX p + dirX p * moveSpeed * ofZ 2) (posX p + dirX p * moveSpeed)
    (posY p + dirY p * moveSpeed * ofZ 2) (posY p + dirY p * moveSpeed)
    (MainTs.move_forward w p).
Proof. unfold MainTs.move_forward. solve_per_axis. Qed.

Lemma main_backward_per_axis :
  per_axis w p
    (posX p - dirX p * moveSpeed * ofZ 2) (posX p - dirX p * moveSpeed)
    (posY p - dirY p * moveSpeed * ofZ 2) (posY p - dirY p * moveSpeed)
    (MainTs.move_backward w p).
Proof. unfold MainTs.move_backward. solve_per_axis. Qed.

Lemma main_left_per_axis :
  per_axis w p
    (posX p + - dirY p * moveSpeed * ofZ 2) (posX p + - dirY p * moveSpeed)
    (posY p + dirX p * moveSpeed * ofZ 2) (posY p + dirX p * moveSpeed)
    (MainTs.strafe_left w p).
Proof. unfold MainTs.strafe_left. solve_per_axis. Qed.

Lemma main_right_per_axis :
  per_axis w p
    (posX p + dirY p * moveSpeed * ofZ 2) (posX p + dirY p * moveSpeed)
    (posY p + - dirX p * moveSpeed * ofZ 2) (posY p + - dirX p * moveSpeed)
    (MainTs.strafe_right w p).
Proof. unfold MainTs.strafe_right. solve_per_axis. Qed.

Lemma doom_forward_per_axis :
  per_axis w p
    (posX p + dirX p * moveSpeed) (posX p + dirX p * moveSpeed)
    (posY p + dirY p * moveSpeed) (posY p + dirY p * moveSpeed)
    (Doom.move_forward w p).
Proof. unfold Doom.move_forward. solve_per_axis. Qed.

Lemma doom_backward_per_axis :
  per_axis w p
    (posX p - dirX p * moveSpeed) (posX p - dirX p * moveSpeed)
    (posY p - dirY p * moveSpeed) (posY p - dirY p * moveSpeed)
    (Doom.move_backward w p).
Proof. unfold Doom.move_backward. solve_per_axis. Qed.

Lemma doom_left_per_axis :
  per_axis w p
    (posX p + - dirY p * moveSpeed) (posX p + - dirY p * moveSpeed)
    (posY p + dirX p * moveSpeed) (posY p + dirX p * moveSpeed)
    (Doom.strafe_left w p).
Proof. unfold Doom.strafe_left. solve_per_axis. Qed.

Lemma doom_right_per_axis :
  per_axis w p
    (posX p + dirY p * moveSpeed) (posX p + dirY p * moveSpeed)
    (posY p + - dirX p * moveSpeed) (posY p + - dirX p * moveSpeed)
    (Doom.strafe_right w p).
Proof. unfold Doom.strafe_right. solve_per_axis. Qed.


End PerAxis.


(** In that scenario the forward movement of [src/src/main.ts] is blocked
    along x by the west wall and free along y: the player slides from
    (1.05, 1.5) to (1.05, 1.54). *)
Example main_forward_slides :
  MainTs.move_forward grid4 player_slide
  = Normal (set_posY player_slide (Fin (77 # 50))).
Proof. vm_compute. reflexivity. Qed.

(** Sliding along a wall: blocked along x and free along y, the player
    keeps the abscissa and takes the new ordinate; and the other way
    round. *)
Lemma per_axis_slide_y (w : Grid) (p : Player) (tx nx ty ny : num) (c : completion) :
  per_axis w p tx nx ty ny c ->
  traversable w (floor (posY p)) (floor tx) = false ->
  traversable w (floor ty) (floor (posX p)) = true ->
  posX (player_of c) = posX p /\ posY (player_of c) = ny.
Proof.
  unfold per_axis. intros [HX [HY _]] Bx Oy.
  rewrite Bx in HX. rewrite HX in HY. rewrite Oy in HY. auto.
Qed.

Lemma per_axis_slide_x (w : Grid) (p : Player) (tx nx ty ny : num) (c : completion) :
  per_axis w p tx nx ty ny c ->
  traversable w (floor (posY p)) (floor tx) = true ->
  traversable w (floor ty) (floor nx) = false ->
  posX (player_of c) = nx /\ posY (player_of c) = posY p.
Proof.
  unfold per_axis. intros [HX [HY _]] Ox By.
  rewrite Ox in HX. rewrite HX in HY. rewrite By in HY. auto.
Qed.

(** *** The player stays in an empty cell *)

Lemma get_Some_index (A : Type) (l : list A) (i : num) (a : A) :
  get l i = Some a -> exists z, index_of i = Some z.
Proof.
  unfold get. destruct (index_of i) as [z|]; [eauto|discriminate].
Qed.

Lemma traversable_index (w : Grid) (r c r' c' : num) :
  index_of r = index_of r' -> index_of c = index_of c' ->
  traversable w r c = traversable w r' c'.
Proof.
  intros Hr Hc. unfold traversable, get. rewrite Hr, Hc. reflexivity.
Qed.

Lemma in_empty_finite (w : Grid) (p : Player) :
  in_empty_cell w p = true ->
  is_finite (posX p) = true /\ is_finite (posY p) = true.
Proof.
  unfold in_empty_cell, traversable. intros H.
  destruct (get w (floor (posY p))) as [cells|] eqn:Er; [|discriminate].
  destruct (get cells (floor (posX p))) as [v|] eqn:Ec; [|discriminate].
  destruct (get_Some_index _ _ _ _ Er) as [zy Hy].
  destruct (get_Some_index _ _ _ _ Ec) as [zx Hx].
  split; eapply index_floor_finite; eauto.
Qed.

Lemma half_step (x e1 e2 : num) :
  is_finite x = true -> half_of e1 e2 ->
  index_of (floor (x + e1)) = index_of (floor x) \/
  index_of (floor (x + e1)) = index_of (floor (x + e2)).
Proof.
  intros Hx [H1 [H2 [E B]]].
  destruct (add_finite x e1 Hx H1) as [F1 V1].
  destruct (add_finite x e2 Hx H2) as [F2 V2].
  rewrite (floor_index_finite _ F1), (floor_index_finite _ F2),
          (floor_index_finite _ Hx), V1, V2.
  destruct (Qfloor_between (val x) (val e1) (val e2) E B) as [->| ->]; auto.
Qed.

Lemma step_pair (a : num) :
  is_finite a = true -> -10 <= val a <= 10 ->
  half_of (a * moveSpeed) (a * moveSpeed * ofZ 2).
Proof.
  intros Ha B. unfold half_of.
  assert (Hm : is_finite moveSpeed = true) by reflexivity.
  assert (H2 : is_finite (ofZ 2) = true) by reflexivity.
  destruct (mul_finite a moveSpeed Ha Hm) as [F1 V1].
  destruct (mul_finite (a * moveSpeed) (ofZ 2) F1 H2) as [F2 V2].
  repeat split; auto.
  - rewrite V2. change (val (ofZ 2)) with 2. ring.
  - rewrite V2, V1. change (val (ofZ 2)) with 2. change (val moveSpeed) with (1 # 20).
    Lqa.lra.
  - rewrite V2, V1. change (val (ofZ 2)) with 2. change (val moveSpeed) with (1 # 20).
    Lqa.lra.
Qed.

Lemma half_of_neg (e1 e2 : num) : half_of e1 e2 -> half_of (- e1) (- e2).
Proof.
  intros [H1 [H2 [E B]]]. unfold half_of.
  destruct (neg_finite e1 H1) as [F1 V1]. destruct (neg_finite e2 H2) as [F2 V2].
  repeat split; auto; rewrite ?V1, ?V2; Lqa.lra.
Qed.

Lemma neg_bounded (a : num) :
  is_finite a = true -> -10 <= val a <= 10 ->
  is_finite (- a) = true /\ -10 <= val (- a) <= 10.
Proof.
  intros Ha B. destruct (neg_finite a Ha) as [F V].
  split; [exact F|]. rewrite V. split; Lqa.lra.
Qed.

(** The engine that tests two steps ahead. *)
Lemma lookahead_keeps_empty (w : Grid) (p : Player) (e1x e2x e1y e2y : num) :
  in_empty_cell w p = true -> half_of e1x e2x -> half_of e1y e2y ->
  in_empty_cell w
    (player_of (two_axis_move w p (posX p + e2x) (posX p + e1x)
                                  (posY p + e2y) (posY p + e1y))) = true.
Proof.
  intros He Hx Hy. destruct (in_empty_finite w p He) as [Fx Fy].
  unfold two_axis_move, when_empty.
  assert (Hrow : exists cells, get w (floor (posY p)) = Some cells).
  { unfold in_empty_cell, traversable in He.
    destruct (get w (floor (posY p))); [eauto|discriminate]. }
  destruct Hrow as [cells Hrow]. rewrite Hrow.
  assert (H1 : in_empty_cell w
                 (if is_zero_cell (get cells (floor (posX p + e2x)))
                  then set_posX p (posX p + e1x) else p) = true).
  { destruct (is_zero_cell (get cells (floor (posX p + e2x)))) eqn:Z; [|exact He].
    unfold in_empty_cell. simpl.
    destruct (half_step (posX p) e1x e2x Fx Hx) as [E|E].
    - rewrite (traversable_index w _ _ (floor (posY p)) (floor (posX p)) eq_refl E).
      exact He.
    - rewrite (traversable_index w _ _ (floor (posY p)) (floor (posX p + e2x)) eq_refl E).
      unfold traversable. rewrite Hrow. exact Z. }
  set (p1 := if is_zero_cell (get cells (floor (posX p + e2x)))
             then set_posX p (posX p + e1x) else p) in *.
  assert (Hp1 : posY p1 = posY p) by (unfold p1; destruct (is_zero_cell _); reflexivity).
  destruct (get w (floor (posY p + e2y))) as [cells'|] eqn:Hrow'; simpl; [|exact H1].
  destruct (is_zero_cell (get cells' (floor (posX p1)))) eqn:Z; [|exact H1].
  unfold in_empty_cell. simpl.
  destruct (half_step (posY p) e1y e2y Fy Hy) as [E|E].
  - rewrite (traversable_index w _ _ (floor (posY p)) (floor (posX p1)) E eq_refl).
    unfold in_empty_cell in H1. rewrite Hp1 in H1. exact H1.
  - rewrite (traversable_index w _ _ (floor (posY p + e2y)) (floor (posX p1)) E eq_refl).
    unfold traversable. rewrite Hrow'. exact Z.
Qed.

(** The engine that tests the cell of the new coordinate. *)
Lemma exact_keeps_empty (w : Grid) (p : Player) (nx ny : num) :
  in_empty_cell w p = true ->
  in_empty_cell w (player_of (two_axis_move w p nx nx ny ny)) = true.
Proof.
  intros He. unfold two_axis_move, when_empty.
  assert (Hrow : exists cells, get w (floor (posY p)) = Some cells).
  { unfold in_empty_cell, traversable in He.
    destruct (get w (floor (posY p))); [eauto|discriminate]. }
  destruct Hrow as [cells Hrow]. rewrite Hrow.
  assert (H1 : in_empty_cell w
                 (if is_zero_cell (get cells (floor nx)) then set_posX p nx else p) = true).
  { destruct (is_zero_cell (get cells (floor nx))) eqn:Z; [|exact He].
    unfold in_empty_cell, traversable. simpl. rewrite Hrow. exact Z. }
  set (p1 := if is_zero_cell (get cells (floor nx)) then set_posX p nx else p) in *.
  destruct (get w (floor ny)) as [cells'|] eqn:Hrow'; simpl; [|exact H1].
  destruct (is_zero_cell (get cells' (floor (posX p1)))) eqn:Z; [|exact H1].
  unfold in_empty_cell, traversable. simpl. rewrite Hrow'. exact Z.
Qed.

Lemma two_axis_ext (w : Grid) (p : Player) (tx nx : num) (ty ny : Player -> num) :
  (forall v, ty (set_posX p v) = ty p) -> (forall v, ny (set_posX p v) = ny p) ->
  when_empty w (floor (posY p)) (floor tx) p (set_posX p nx) (fun p1 =>
  when_empty w (floor (ty p1)) (floor (posX p1)) p1 (set_posY p1 (ny p1)) Normal)
  = two_axis_move w p tx nx (ty p) (ny p).
Proof.
  intros Ht Hn. unfold two_axis_move, when_empty.
  destruct (get w (floor (posY p))); [|reflexivity].
  destruct (is_zero_cell _); [rewrite Ht, Hn|]; reflexivity.
Qed.

Lemma main_forward_shape (w : Grid) (p : Player) :
  MainTs.move_forward w p
  = two_axis_move w p (posX p + dirX p * moveSpeed * ofZ 2) (posX p + dirX p * moveSpeed)
                      (posY p + dirY p * moveSpeed * ofZ 2) (posY p + dirY p * moveSpeed).
Proof.
  apply (two_axis_ext w p _ _ (fun p1 => posY p1 + dirY p1 * moveSpeed * ofZ 2)%num
                              (fun p1 => posY p1 + dirY p1 * moveSpeed)%num);
    reflexivity.
Qed.

Lemma main_backward_shape (w : Grid) (p : Player) :
  MainTs.move_backward w p
  = two_axis_move w p (posX p + - (dirX p * moveSpeed * ofZ 2))
                      (posX p + - (dirX p * moveSpeed))
                      (posY p + - (dirY p * moveSpeed * ofZ 2))
                      (posY p + - (dirY p * moveSpeed)).
Proof.
  apply (two_axis_ext w p _ _ (fun p1 => posY p1 - dirY p1 * moveSpeed * ofZ 2)%num
                              (fun p1 => posY p1 - dirY p1 * moveSpeed)%num);
    reflexivity.
Qed.

Lemma main_left_shape (w : Grid) (p : Player) :
  MainTs.strafe_left w p
  = two_axis_move w p (posX p + - dirY p * moveSpeed * ofZ 2) (posX p + - dirY p * moveSpeed)
                      (posY p + dirX p * moveSpeed * ofZ 2) (posY p + dirX p * moveSpeed).
Proof.
  apply (two_axis_ext w p _ _ (fun p1 => posY p1 + dirX p * moveSpeed * ofZ 2)%num
                              (fun p1 => posY p1 + dirX p * moveSpeed)%num);
    reflexivity.
Qed.

Lemma main_right_shape (w : Grid) (p : Player) :
  MainTs.strafe_right w p
  = two_axis_move w p (posX p + dirY p * moveSpeed * ofZ 2) (posX p + dirY p * moveSpeed)
                      (posY p + - dirX p * moveSpeed * ofZ 2) (posY p + - dirX p * moveSpeed).
Proof.
  apply (two_axis_ext w p _ _ (fun p1 => posY p1 + - dirX p * moveSpeed * ofZ 2)%num
                              (fun p1 => posY p1 + - dirX p * moveSpeed)%num);
    reflexivity.
Qed.

Lemma doom_forward_shape (w : Grid) (p : Player) :
  Doom.move_forward w p
  = two_axis_move w p (posX p + dirX p * moveSpeed) (posX p + dirX p * moveSpeed)
                      (posY p + dirY p * moveSpeed) (posY p + dirY p * moveSpeed).
Proof.
  apply (two_axis_ext w p _ _ (fun _ => posY p + dirY p * moveSpeed)%num
                              (fun _ => posY p + dirY p * moveSpeed)%num);
    reflexivity.
Qed.

Lemma doom_backward_shape (w : Grid) (p : Player) :
  Doom.move_backward w p
  = two_axis_move w p (posX p - dirX p * moveSpeed) (posX p - dirX p * moveSpeed)
                      (posY p - dirY p * moveSpeed) (posY p - dirY p * moveSpeed).
Proof.
  apply (two_axis_ext w p _ _ (fun _ => posY p - dirY p * moveSpeed)%num
                              (fun _ => posY p - dirY p * moveSpeed)%num);
    reflexivity.
Qed.

Lemma doom_left_shape (w : Grid) (p : Player) :
  Doom.strafe_left w p
  = two_axis_move w p (posX p + - dirY p * moveSpeed) (posX p + - dirY p * moveSpeed)
                      (posY p + dirX p * moveSpeed) (posY p + dirX p * moveSpeed).
Proof.
  apply (two_axis_ext w p _ _ (fun p1 => posY p1 + dirX p * moveSpeed)%num
                              (fun p1 => posY p1 + dirX p * moveSpeed)%num);
    reflexivity.
Qed.

Lemma doom_right_shape (w : Grid) (p : Player) :
  Doom.strafe_right w p
  = two_axis_move w p (posX p + dirY p * moveSpeed) (posX p + dirY p * moveSpeed)
                      (posY p + - dirX p * moveSpeed) (posY p + - dirX p * moveSpeed).
Proof.
  apply (two_axis_ext w p _ _ (fun p1 => posY p1 + - dirX p * moveSpeed)%num
                              (fun p1 => posY p1 + - dirX p * moveSpeed)%num);
    reflexivity.
Qed.

(** In the second engine the four movements keep the player in an empty
    cell, whatever the direction is. *)
Lemma doom_keeps_empty (w : Grid) (p : Player) :
  in_empty_cell w p = true ->
  in_empty_cell w (player_of (Doom.move_forward w p)) = true /\
  in_empty_cell w (player_of (Doom.move_backward w p)) = true /\
  in_empty_cell w (player_of (Doom.strafe_left w p)) = true /\
  in_empty_cell w (player_of (Doom.strafe_right w p)) = true.
Proof.
  intros He.
  rewrite doom_forward_shape, doom_backward_shape, doom_left_shape, doom_right_shape.
  unfold sub.
  repeat split; apply exact_keeps_empty; exact He.
Qed.

Lemma main_keeps_empty (w : Grid) (p : Player) :
  in_empty_cell w p = true -> dir_bounded p = true ->
  in_empty_cell w (player_of (MainTs.move_forward w p)) = true /\
  in_empty_cell w (player_of (MainTs.move_backward w p)) = true /\
  in_empty_cell w (player_of (MainTs.strafe_left w p)) = true /\
  in_empty_cell w (player_of (MainTs.strafe_right w p)) = true.
Proof.
  intros He Hd. unfold dir_bounded in Hd. apply andb_prop in Hd.
  destruct Hd as [HdX HdY].
  destruct (abs_leb _ _ HdX) as [FX BX]. destruct (abs_leb _ _ HdY) as [FY BY].
  change (inject_Z 10) with 10 in BX, BY.
  destruct (neg_bounded _ FX BX) as [FX' BX'].
  destruct (neg_bounded _ FY BY) as [FY' BY'].
  rewrite main_forward_shape, main_backward_shape, main_left_shape, main_right_shape.
  repeat split; apply lookahead_keeps_empty; try exact He;
    try apply half_of_neg; apply step_pair; assumption.
Qed.



End Movement.

(** ** The generated maps *)

Module Generation.
Import NumFacts.

Lemma set_nth_length (A : Type) (l : list A) (n : nat) (v : A) :
  length (set_nth l n v) = length l.
Proof.
  revert n. induction l as [|a l IH]; intros [|n]; simpl; auto.
Qed.

Lemma nth_error_set_nth_eq (A : Type) (l : list A) (n : nat) (v : A) :
  (n < length l)%nat -> nth_error (set_nth l n v) n = Some v.
Proof.
  revert n. induction l as [|a l IH]; intros [|n] H; simpl in *; try lia; auto.
  apply IH. lia.
Qed.

Lemma nth_error_set_nth_neq (A : Type) (l : list A) (n k : nat) (v : A) :
  n <> k -> nth_error (set_nth l n v) k = nth_error l k.
Proof.
  revert n k. induction l as [|a l IH]; intros [|n] [|k] H; simpl; auto.
  - contradiction.
Qed.

Lemma In_set_nth (A : Type) (l : list A) (n : nat) (v a : A) :
  In a (set_nth l n v) -> a = v \/ In a l.
Proof.
  revert n. induction l as [|b l IH]; intros [|n]; simpl; auto.
  - intros [H|H]; auto.
  - intros [H|H]; auto. destruct (IH _ H); auto.
Qed.

Lemma set_cell_wf (w h : Z) (m : Grid) (y x v : Z) :
  wf_grid w h m = true -> wf_grid w h (set_cell m y x v) = true.
Proof.
  unfold wf_grid, set_cell. intros H. apply andb_prop in H. destruct H as [Hl Hr].
  destruct (nth_error m (Z.to_nat y)) as [row|] eqn:E;
    [|rewrite Hl, Hr; reflexivity].
  rewrite set_nth_length, Hl. simpl.
  rewrite forallb_forall in *. intros r Hin.
  destruct (In_set_nth _ _ _ _ _ Hin) as [->|Hin'].
  - rewrite set_nth_length. apply Hr. eapply nth_error_In; eauto.
  - auto.
Qed.

Lemma cell_at_set_cell_other (m : Grid) (y x v zx zy : Z) :
  (0 <= x)%Z -> (0 <= y)%Z -> (zx <> x \/ zy <> y) ->
  cell_at (set_cell m y x v) zx zy = cell_at m zx zy.
Proof.
  intros Hx Hy Hne. unfold cell_at, set_cell.
  destruct (Z.ltb_spec zx 0); [reflexivity|].
  destruct (Z.ltb_spec zy 0); [reflexivity|]. simpl.
  destruct (nth_error m (Z.to_nat y)) as [row|] eqn:E; [|reflexivity].
  destruct (Z.eq_dec zy y) as [->|Hy'].
  - assert (Hlt : (Z.to_nat y < length m)%nat)
      by (apply nth_error_Some; congruence).
    rewrite nth_error_set_nth_eq by exact Hlt. rewrite E.
    apply nth_error_set_nth_neq. lia.
  - rewrite nth_error_set_nth_neq by lia. reflexivity.
Qed.

Lemma get2_ofZ (m : Grid) (zx zy : Z) :
  (0 <= zx)%Z -> (0 <= zy < Z.of_nat (length m))%Z ->
  get2 m (ofZ zy) (ofZ zx) = Ret (cell_at m zx zy).
Proof.
  intros Hx Hy. unfold get2, cell_at.
  rewrite get_ofZ by lia.
  destruct (Z.ltb_spec zx 0); [lia|]. destruct (Z.ltb_spec zy 0); [lia|]. simpl.
  destruct (nth_error m (Z.to_nat zy)) as [row|] eqn:E.
  - rewrite get_ofZ by lia. reflexivity.
  - apply nth_error_None in E. lia.
Qed.

Lemma fold_left_inv (A B : Type) (P : A -> Prop) (f : A -> B -> A) (l : list B) :
  (forall a b, In b l -> P a -> P (f a b)) ->
  forall a, P a -> P (fold_left f l a).
Proof.
  induction l as [|b l IH]; intros H a Ha; simpl; [exact Ha|].
  apply IH.
  - intros a' b' Hin. apply H. right. exact Hin.
  - apply H; [left; reflexivity|exact Ha].
Qed.

Lemma for_cells_inv (S : Type) (P : S -> Prop) (y0 y1 x0 x1 : Z)
    (body : Z -> Z -> S -> S) :
  (forall y x s, (y0 <= y < y1)%Z -> (x0 <= x < x1)%Z -> P s -> P (body y x s)) ->
  forall s, P s -> P (for_cells y0 y1 x0 x1 body s).
Proof.
  intros H s Hs. unfold for_cells.
  apply fold_left_inv; [|exact Hs].
  intros a y Hy Ha. apply fold_left_inv; [|exact Ha].
  intros a' x Hx Ha'. apply H; auto; apply Walk.range_In; assumption.
Qed.

Section Invariant.

Variable rnd : nat -> Q.
Hypothesis rnd_valid : valid_random rnd.

(** A store in a cell that is neither on the border nor the start cell. *)
Lemma set_cell_inv (m : Grid) (y x v : Z) :
  gen_inv rnd m -> (1 <= x <= 30)%Z -> (1 <= y <= 30)%Z ->
  (x <> 15%Z \/ y <> 15%Z \/ draws_15 rnd) ->
  gen_inv rnd (set_cell m y x v).
Proof.
  intros [Hwf [Hb Hs]] Hx Hy Hne. split; [|split].
  - apply set_cell_wf. exact Hwf.
  - intros zx zy Hzx Hzy Hon.
    rewrite cell_at_set_cell_other; [auto|lia|lia|].
    unfold on_border in Hon. lia.
  - destruct Hs as [Hs|Hs]; [|right; exact Hs].
    destruct Hne as [Hne|[Hne|Hne]]; [| |right; exact Hne]; left;
      (rewrite cell_at_set_cell_other; [exact Hs|lia|lia|lia]).
Qed.

Lemma outer_walls_inv : gen_inv rnd (outer_walls 32 32 (empty_map 32 32)).
Proof.
  split; [reflexivity|]. split; [|left; reflexivity].
  intros zx zy Hx Hy Hon.
  assert (H : border_walls 32 32 (outer_walls 32 32 (empty_map 32 32)) = true)
    by (vm_compute; reflexivity).
  unfold border_walls in H. rewrite forallb_forall in H.
  specialize (H zy (proj2 (Walk.range_In 0 32 zy) Hy)).
  rewrite forallb_forall in H.
  specialize (H zx (proj2 (Walk.range_In 0 32 zx) Hx)).
  rewrite Hon in H. destruct (cell_at _ zx zy) as [v|]; [|discriminate].
  apply Z.eqb_eq in H. congruence.
Qed.

Lemma inv_sealed (m : Grid) : gen_inv rnd m -> sealed 32 32 m = true.
Proof.
  intros [_ [Hb _]]. unfold sealed.
  apply forallb_forall. intros zy Hy. apply forallb_forall. intros zx Hx.
  apply Walk.range_In in Hy. apply Walk.range_In in Hx.
  destruct (on_border 32 32 zx zy) eqn:Hon; [|reflexivity].
  rewrite (Hb zx zy Hx Hy Hon). reflexivity.
Qed.

Lemma random_wall_inv (threshold : Q) (k y x : Z) (s : GenState) :
  (1 <= x <= 30)%Z -> (1 <= y <= 30)%Z -> (x <> 15%Z \/ y <> 15%Z) ->
  gen_inv rnd (fst s) -> gen_inv rnd (fst (random_wall rnd threshold k y x s)).
Proof.
  intros Hx Hy Hne H. destruct s as [m n]. unfold random_wall.
  destruct (Qltb threshold (rnd n)); cbn [fst] in *; [|exact H].
  apply set_cell_inv; auto. tauto.
Qed.

Lemma draw_range (n : nat) : (2 <= Qfloor (rnd n * 28) + 2 <= 29)%Z.
Proof.
  destruct (rnd_valid n) as [H0 H1].
  assert (Hlo : (0 <= Qfloor (rnd n * 28))%Z).
  { apply Qfloor_ge_inject. change (inject_Z 0) with 0. Lqa.lra. }
  assert (Hhi : (Qfloor (rnd n * 28) < 28)%Z).
  { apply Qfloor_lt_inject. change (inject_Z 28) with 28. Lqa.lra. }
  lia.
Qed.

Lemma random_pillar_inv (k : Z) (s : GenState) :
  gen_inv rnd (fst s) ->
  exists s', random_pillar rnd k s = Ret s' /\ gen_inv rnd (fst s').
Proof.
  destruct s as [m n]. cbn [fst]. intros H. unfold random_pillar. cbv zeta.
  pose proof (draw_range n) as Hx. pose proof (draw_range (S n)) as Hy.
  assert (Hlen : Z.of_nat (length m) = 32%Z).
  { destruct H as [Hwf _]. unfold wf_grid in Hwf. apply andb_prop in Hwf.
    apply Z.eqb_eq. tauto. }
  rewrite get2_ofZ by lia. unfold bind.
  destruct (is_zero_cell _); eexists; (split; [reflexivity|]); cbn [fst]; [|exact H].
  apply set_cell_inv; [exact H|lia|lia|].
  destruct (Z.eq_dec (Qfloor (rnd n * 28) + 2) 15) as [E|E]; [|left; exact E].
  right. right. exists n. lia.
Qed.

Lemma random_pillars_inv (k : Z) (count : nat) (s : GenState) :
  gen_inv rnd (fst s) ->
  exists s', random_pillars rnd k count s = Ret s' /\ gen_inv rnd (fst s').
Proof.
  revert s. induction count as [|count IH]; intros s H; simpl.
  - exists s. auto.
  - destruct (random_pillar_inv k s H) as [s1 [E1 H1]]. rewrite E1. unfold bind.
    apply IH. exact H1.
Qed.

Ltac cell_store := apply set_cell_inv; [|lia|lia|lia].

Lemma generateLargeMap_inv :
  exists m, MainTs.generateLargeMap rnd = Ret m /\ gen_inv rnd m.
Proof.
  unfold MainTs.generateLargeMap, MainTs.mapWidth, MainTs.mapHeight. cbv zeta.
  set (s1 := for_cells 3 8 3 8 _ _).
  set (s2 := for_cells 3 8 20 28 _ s1).
  set (s3 := for_cells 20 28 3 8 _ s2).
  set (s4 := for_cells 20 28 20 28 _ s3).
  assert (H1 : gen_inv rnd (fst s1)).
  { apply (for_cells_inv _ (fun s => gen_inv rnd (fst s))); [|exact outer_walls_inv].
    intros y x s Hy Hx Hs. apply random_wall_inv; auto; lia. }
  assert (H2 : gen_inv rnd (fst s2)).
  { apply (for_cells_inv _ (fun s => gen_inv rnd (fst s))); [|exact H1].
    intros y x s Hy Hx Hs. apply random_wall_inv; auto; lia. }
  assert (H3 : gen_inv rnd (fst s3)).
  { apply (for_cells_inv _ (fun s => gen_inv rnd (fst s))); [|exact H2].
    intros y x s Hy Hx Hs. apply random_wall_inv; auto; lia. }
  assert (H4 : gen_inv rnd (fst s4)).
  { apply (for_cells_inv _ (fun s => gen_inv rnd (fst s))); [|exact H3].
    intros y x s Hy Hx Hs. apply random_wall_inv; auto; lia. }
  clearbody s4. destruct s4 as [m4 n4]. cbn [fst] in H4.
  match goal with
  | |- context [random_pillars rnd 5 10 (?m, n4)] =>
      assert (H5 : gen_inv rnd m)
  end.
  { do 4 cell_store.
    apply (fold_left_inv _ _ (gen_inv rnd)).
    { intros m y Hy Hm. apply Walk.range_In in Hy. do 2 cell_store. exact Hm. }
    apply (fold_left_inv _ _ (gen_inv rnd)); [|exact H4].
    intros m x Hx Hm. apply Walk.range_In in Hx. do 2 cell_store. exact Hm. }
  destruct (random_pillars_inv 5 10 (_, n4) H5) as [s' [E H']].
  rewrite E. exists (fst s'). split; [reflexivity|exact H'].
Qed.

Lemma createDoomMap_inv :
  exists m, Doom.createDoomMap rnd = Ret m /\ gen_inv rnd m.
Proof.
  unfold Doom.createDoomMap, Doom.mapWidth, Doom.mapHeight. cbv zeta.
  set (m1 := for_cells 5 10 5 20 _ _).
  set (s2 := for_cells 15 22 5 12 _ (m1, O)).
  set (s3 := for_cells 15 22 18 25 _ s2).
  assert (H1 : gen_inv rnd m1).
  { apply (for_cells_inv _ (gen_inv rnd)); [|exact outer_walls_inv].
    intros y x m Hy Hx Hm. destruct (_ && _); [cell_store|]; exact Hm. }
  assert (H2 : gen_inv rnd (fst s2)).
  { apply (for_cells_inv _ (fun s => gen_inv rnd (fst s))); [|exact H1].
    intros y x [m n] Hy Hx Hs. cbn [fst] in Hs.
    destruct (Qltb _ _); cbn [fst]; [cell_store|]; exact Hs. }
  assert (H3 : gen_inv rnd (fst s3)).
  { apply (for_cells_inv _ (fun s => gen_inv rnd (fst s))); [|exact H2].
    intros y x [m n] Hy Hx Hs. cbn [fst] in Hs.
    destruct (Qltb _ _); cbn [fst]; [cell_store|]; exact Hs. }
  clearbody s3. destruct s3 as [m3 n3]. cbn [fst] in H3.
  match goal with
  | |- context [random_pillars rnd 4 20 (?m, n3)] =>
      assert (H5 : gen_inv rnd m)
  end.
  { apply (fold_left_inv _ _ (gen_inv rnd)).
    { intros m i Hi Hm. apply Walk.range_In in Hi. do 2 cell_store. exact Hm. }
    apply (for_cells_inv _ (gen_inv rnd)).
    { intros y x m Hy Hx Hm. destruct (_ && _); [cell_store|]; exact Hm. }
    cell_store. exact H3. }
  destruct (random_pillars_inv 4 20 (_, n3) H5) as [s' [E H']].
  rewrite E. exists (fst s'). split; [reflexivity|exact H'].
Qed.


End Invariant.

Lemma rnd0_valid : valid_random rnd0.
Proof. intros k. unfold rnd0. split; [apply Qle_refl|reflexivity]. Defined.



End Generation.

(** ** Frames *)

Module Frame.
Import NumFacts.

Lemma as_int_ofZ (a : num) (z : Z) : as_int a = Some z -> a = ofZ z.
Proof.
  destruct a as [[n d]| | | |]; simpl; try discriminate.
  destruct d; try discriminate. intros [= ->]. reflexivity.
Qed.

Lemma range_cons (a b : Z) : (a < b)%Z -> range a b = a :: range (a + 1) b.
Proof.
  intros H. unfold range.
  replace (Z.to_nat (b - a)) with (S (Z.to_nat (b - (a + 1)))) by lia.
  simpl. f_equal; [lia|].
  rewrite <- seq_shift, map_map. apply map_ext. intros k. lia.
Qed.

Lemma range_nil (a b : Z) : (b <= a)%Z -> range a b = [].
Proof.
  intros H. unfold range. replace (Z.to_nat (b - a)) with O by lia. reflexivity.
Qed.

(** A loop over rows between two integers is a fold over the rows. *)
Lemma for_rows_int (body : num -> ImageData -> ImageData) :
  forall fuel a b d, (Z.to_nat (b - a) <= fuel)%nat ->
  for_rows fuel (ofZ a) (ofZ b) body d
  = Ret (fold_left (fun d r => body (ofZ r) d) (range a b) d).
Proof.
  induction fuel as [|fuel IH]; intros a b d Hf.
  - cbn [for_rows]. rewrite ofZ_ltb. destruct (Z.ltb_spec a b); [lia|].
    rewrite range_nil by lia. reflexivity.
  - cbn [for_rows]. rewrite ofZ_ltb. destruct (Z.ltb_spec a b) as [H|H].
    + rewrite ofZ_add, IH by lia. rewrite (range_cons a b H). reflexivity.
    + rewrite range_nil by lia. reflexivity.
Qed.

(** Stores. *)
Lemma store_size (d : ImageData) (i : num) (v : Z) : size (store d i v) = size d.
Proof.
  unfold store. destruct (index_of i); [|reflexivity].
  destruct (_ && _); reflexivity.
Qed.

Lemma store_ofZ (d : ImageData) (z v j : Z) :
  bytes (store d (ofZ z) v) j
  = if ((0 <=? z) && (z <? size d) && (j =? z))%Z then clamp8 v else bytes d j.
Proof.
  unfold store. rewrite index_of_ofZ.
  destruct ((0 <=? z) && (z <? size d))%Z; simpl; reflexivity.
Qed.

Lemma put_pixel_size (d : ImageData) (i : num) (r g b : Z) :
  size (put_pixel d i r g b) = size d.
Proof. unfold put_pixel. rewrite !store_size. reflexivity. Qed.

Lemma put_pixel_other (d : ImageData) (z r g b j : Z) :
  (j < z \/ z + 4 <= j)%Z ->
  bytes (put_pixel d (ofZ z) r g b) j = bytes d j.
Proof.
  intros H. unfold put_pixel. rewrite !ofZ_add, !store_ofZ.
  repeat match goal with
         | |- context [(?j =? ?k)%Z] => destruct (Z.eqb_spec j k); [lia|]
         end.
  rewrite !andb_false_r. reflexivity.
Qed.

(** The red byte of a pixel that is put inside the frame. *)
Lemma put_pixel_red (d : ImageData) (z r g b : Z) :
  (0 <= z)%Z -> (z + 3 < size d)%Z ->
  bytes (put_pixel d (ofZ z) r g b) z = clamp8 r.
Proof.
  intros H0 H1. unfold put_pixel. rewrite !ofZ_add, !store_ofZ, !store_size.
  repeat match goal with
         | |- context [(z =? z + ?k)%Z] => destruct (Z.eqb_spec z (z + k)); [lia|]
         end.
  rewrite !andb_false_r. rewrite Z.eqb_refl.
  destruct (Z.leb_spec 0 z); [|lia]. destruct (Z.ltb_spec z (size d)); [|lia].
  reflexivity.
Qed.

Section Rows.

Variables width height col : Z.
Hypothesis width_pos : (0 < width)%Z.
Hypothesis col_range : (0 <= col < width)%Z.

Lemma pixelIndex_ofZ (r : Z) :
  (0 <= r)%Z -> pixelIndex_of width col (ofZ r) = ofZ ((r * width + col) * 4).
Proof.
  intros H. unfold pixelIndex_of.
  rewrite ofZ_mul, ofZ_add, ofZ_mul by nia. reflexivity.
Qed.

Lemma wall_row_other (sd : Z) (st : Strip) (r j : Z) (d : ImageData) :
  (0 <= r)%Z -> pixel_bytes width r col j = false ->
  bytes (wall_row width height col sd st (ofZ r) d) j = bytes d j /\
  size (wall_row width height col sd st (ofZ r) d) = size d.
Proof.
  intros Hr Hj. unfold wall_row. cbv zeta.
  destruct (_ && _); [|split; reflexivity].
  rewrite pixelIndex_ofZ by exact Hr. split; [|apply put_pixel_size].
  apply put_pixel_other. unfold pixel_bytes in Hj. lia.
Qed.

Lemma flat_row_other (rgb : Z * Z * Z) (r j : Z) (d : ImageData) :
  (0 <= r)%Z -> pixel_bytes width r col j = false ->
  bytes (flat_row width col rgb (ofZ r) d) j = bytes d j /\
  size (flat_row width col rgb (ofZ r) d) = size d.
Proof.
  intros Hr Hj. unfold flat_row. destruct rgb as [[cr cg] cb].
  rewrite pixelIndex_ofZ by exact Hr. split; [|apply put_pixel_size].
  apply put_pixel_other. unfold pixel_bytes in Hj. lia.
Qed.

(** A fold over rows none of which holds the byte [j]. *)
Lemma fold_rows_other (body : num -> ImageData -> ImageData) (j : Z) (rows : list Z) :
  (forall r d, In r rows ->
     bytes (body (ofZ r) d) j = bytes d j /\ size (body (ofZ r) d) = size d) ->
  forall d,
    bytes (fold_left (fun d r => body (ofZ r) d) rows d) j = bytes d j /\
    size (fold_left (fun d r => body (ofZ r) d) rows d) = size d.
Proof.
  induction rows as [|r rows IH]; intros H d; simpl; [split; reflexivity|].
  destruct (IH (fun r' d' Hin => H r' d' (or_intror Hin)) (body (ofZ r) d)) as [E1 E2].
  destruct (H r d (or_introl eq_refl)) as [E3 E4].
  rewrite E1, E2, E3, E4. split; reflexivity.
Qed.

(** A byte that belongs to a pixel of a visited row is seen by
    [writes_byte]. *)
Lemma visited_writes (a b r j : Z) :
  visited_row height a b r = true -> pixel_bytes width r col j = true ->
  (0 <= r)%Z -> writes_byte width height a b col j = true.
Proof.
  intros Hv Hp Hr. unfold pixel_bytes in Hp. unfold writes_byte.
  assert (Hq : (j / 4 = r * width + col)%Z).
  { symmetry. apply (Z.div_unique j 4 (r * width + col) (j - (r * width + col) * 4)); lia. }
  assert (Hrow : (j / 4 / width = r)%Z).
  { rewrite Hq. symmetry. apply (Z.div_unique _ width r col); lia. }
  assert (Hcol : ((j / 4) mod width = col)%Z).
  { rewrite Hq. symmetry. apply (Z.mod_unique _ width r col); lia. }
  rewrite Hrow, Hcol, Hv, Z.eqb_refl.
  destruct (Z.leb_spec 0 j); [reflexivity|nia].
Qed.

(** The three loops of a column with integer limits: they complete, and
    they leave alone every byte that [writes_byte] does not see. *)
Lemma three_loops_other (sd : Z) (st : Strip) (fuel : nat) (frgb crgb : Z * Z * Z)
    (a b j : Z) (d : ImageData) :
  drawStart st = ofZ a -> drawEnd st = ofZ b ->
  (0 <= a <= height)%Z -> (-1 <= b <= height)%Z ->
  (Z.to_nat height < fuel)%nat ->
  writes_byte width height a b col j = false ->
  exists d1 d2 d3,
    for_rows fuel (drawStart st) (drawEnd st)
      (wall_row width height col sd st) d = Ret d1 /\
    for_rows fuel (drawEnd st + ofZ 1) (ofZ height) (flat_row width col frgb) d1 = Ret d2 /\
    for_rows fuel (ofZ 0) (drawStart st) (flat_row width col crgb) d2 = Ret d3 /\
    bytes d3 j = bytes d j /\ size d3 = size d.
Proof.
  intros Ea Eb Ha Hb Hf Hw. rewrite Ea, Eb, ofZ_add.
  set (d1 := fold_left (fun d r => wall_row width height col sd st (ofZ r) d) (range a b) d).
  set (d2 := fold_left (fun d r => flat_row width col frgb (ofZ r) d) (range (b + 1) height) d1).
  set (d3 := fold_left (fun d r => flat_row width col crgb (ofZ r) d) (range 0 a) d2).
  exists d1, d2, d3.
  split; [apply for_rows_int; lia|]. split; [apply for_rows_int; lia|].
  split; [apply for_rows_int; lia|].
  assert (Hmiss : forall r, (0 <= r)%Z -> visited_row height a b r = true ->
                            pixel_bytes width r col j = false).
  { intros r Hr Hv. destruct (pixel_bytes width r col j) eqn:Hp; [|reflexivity].
    rewrite (visited_writes a b r j Hv Hp Hr) in Hw. discriminate. }
  destruct (fold_rows_other (flat_row width col crgb) j (range 0 a)) with (d := d2)
    as [E1 E2].
  { intros r d' Hin. apply Walk.range_In in Hin. apply flat_row_other; [lia|].
    apply Hmiss; [lia|]. unfold visited_row.
    destruct (Z.leb_spec 0 r); [|lia]. destruct (Z.ltb_spec r a); [|lia].
    rewrite !orb_true_r. reflexivity. }
  destruct (fold_rows_other (flat_row width col frgb) j (range (b + 1) height)) with (d := d1)
    as [E3 E4].
  { intros r d' Hin. apply Walk.range_In in Hin. apply flat_row_other; [lia|].
    apply Hmiss; [lia|]. unfold visited_row.
    destruct (Z.ltb_spec b r); [|lia]. destruct (Z.ltb_spec r height); [|lia].
    simpl. rewrite orb_true_r. reflexivity. }
  destruct (fold_rows_other (wall_row width height col sd st) j (range a b)) with (d := d)
    as [E5 E6].
  { intros r d' Hin. apply Walk.range_In in Hin. apply wall_row_other; [lia|].
    apply Hmiss; [lia|]. unfold visited_row.
    destruct (Z.leb_spec a r); [|lia]. destruct (Z.ltb_spec r b); [|lia].
    reflexivity. }
  fold d1 in E5, E6, E3, E4. fold d2 in E3, E4, E1, E2. fold d3 in E1, E2.
  split; congruence.
Qed.

Lemma fold_rows_size (body : num -> ImageData -> ImageData) (rows : list Z) :
  (forall r d, size (body (ofZ r) d) = size d) ->
  forall d, size (fold_left (fun d r => body (ofZ r) d) rows d) = size d.
Proof.
  intros H. induction rows as [|r rows IH]; intros d; simpl; [reflexivity|].
  rewrite IH. apply H.
Qed.

Lemma wall_row_size (sd : Z) (st : Strip) (y : num) (d : ImageData) :
  size (wall_row width height col sd st y d) = size d.
Proof.
  unfold wall_row. cbv zeta. destruct (_ && _); [apply put_pixel_size|reflexivity].
Qed.

Lemma flat_row_size (rgb : Z * Z * Z) (y : num) (d : ImageData) :
  size (flat_row width col rgb y d) = size d.
Proof. unfold flat_row. destruct rgb as [[r g] b]. apply put_pixel_size. Qed.

(** The ceiling loop of a column with a ceiling stores the red byte of the
    top pixel of the column, and no later row of the loop touches it. *)
Lemma ceiling_fold_red (cr cg cb a : Z) (d : ImageData) :
  (1 <= a)%Z -> (col * 4 + 3 < size d)%Z ->
  bytes (fold_left (fun d r => flat_row width col (cr, cg, cb) (ofZ r) d) (range 0 a) d)
        (col * 4) = clamp8 cr.
Proof.
  intros Ha Hs. rewrite (range_cons 0 a) by lia. cbn [fold_left].
  destruct (fold_rows_other (flat_row width col (cr, cg, cb)) (col * 4) (range (0 + 1) a))
    with (d := flat_row width col (cr, cg, cb) (ofZ 0) d) as [E1 _].
  { intros r d' Hin. apply Walk.range_In in Hin. apply flat_row_other; [lia|].
    unfold pixel_bytes.
    destruct (Z.leb_spec ((r * width + col) * 4) (col * 4)); [nia|reflexivity]. }
  rewrite E1. unfold flat_row. rewrite pixelIndex_ofZ by lia.
  replace ((0 * width + col) * 4)%Z with (col * 4)%Z by lia.
  apply put_pixel_red; lia.
Qed.

Lemma three_loops_ceiling (sd : Z) (st : Strip) (fuel : nat) (frgb : Z * Z * Z)
    (cr cg cb a b : Z) (d : ImageData) :
  drawStart st = ofZ a -> drawEnd st = ofZ b ->
  (1 <= a <= height)%Z -> (-1 <= b <= height)%Z ->
  (Z.to_nat height < fuel)%nat ->
  (col * 4 + 3 < size d)%Z ->
  exists d1 d2 d3,
    for_rows fuel (drawStart st) (drawEnd st)
      (wall_row width height col sd st) d = Ret d1 /\
    for_rows fuel (drawEnd st + ofZ 1) (ofZ height) (flat_row width col frgb) d1 = Ret d2 /\
    for_rows fuel (ofZ 0) (drawStart st) (flat_row width col (cr, cg, cb)) d2 = Ret d3 /\
    bytes d3 (col * 4) = clamp8 cr /\ size d3 = size d.
Proof.
  intros Ea Eb Ha Hb Hf Hs. rewrite Ea, Eb, ofZ_add.
  do 3 eexists.
  split; [apply for_rows_int; lia|]. split; [apply for_rows_int; lia|].
  split; [apply for_rows_int; lia|].
  assert (S3 : forall d0,
             size (fold_left (fun d r => flat_row width col (cr, cg, cb) (ofZ r) d)
                     (range 0 a) d0) = size d0)
    by (apply fold_rows_size; intros; apply flat_row_size).
  assert (S2 : forall d0,
             size (fold_left (fun d r => flat_row width col frgb (ofZ r) d)
                     (range (b + 1) height) d0) = size d0)
    by (apply fold_rows_size; intros; apply flat_row_size).
  assert (S1 : forall d0,
             size (fold_left (fun d r => wall_row width height col sd st (ofZ r) d)
                     (range a b) d0) = size d0)
    by (apply fold_rows_size; intros; apply wall_row_size).
  split.
  - apply ceiling_fold_red; [lia|]. rewrite S2, S1. exact Hs.
  - rewrite S3, S2, S1. reflexivity.
Qed.

End Rows.

Lemma cast_limits (c : outcome (Ray * Strip)) (a b : Z) :
  strip_limits c = Some (a, b) ->
  exists r st, c = Ret (r, st) /\ drawStart st = ofZ a /\ drawEnd st = ofZ b.
Proof.
  unfold strip_limits. destruct c as [[r st]| |]; try discriminate.
  destruct (as_int (drawStart st)) as [a'|] eqn:Ea; [|discriminate].
  destruct (as_int (drawEnd st)) as [b'|] eqn:Eb; [|discriminate].
  intros [= <- <-]. exists r, st.
  split; [reflexivity|]. split; apply as_int_ofZ; assumption.
Qed.

Lemma column_misses_spec (width height j col : Z) (c : outcome (Ray * Strip)) :
  column_misses width height j col c = true ->
  exists r st a b,
    c = Ret (r, st) /\ drawStart st = ofZ a /\ drawEnd st = ofZ b /\
    (0 <= col < width)%Z /\ (0 <= a <= height)%Z /\ (-1 <= b <= height)%Z /\
    writes_byte width height a b col j = false.
Proof.
  unfold column_misses. destruct (strip_limits c) as [[a b]|] eqn:E; [|discriminate].
  intros H. apply andb_prop in H. destruct H as [H Hw].
  destruct (cast_limits c a b E) as [r [st [Ec [Ea Eb]]]].
  exists r, st, a, b. repeat (split; [assumption|]).
  apply negb_true_iff in Hw. repeat split; try exact Hw; lia.
Qed.

(** The raycasting loop of [src/src/main.ts] leaves alone a byte that all
    its columns miss. *)
Lemma main_columns_other (fuel : nat) (e : MainTs.Engine) (j : Z) :
  (Z.to_nat MainTs.height < fuel)%nat ->
  forall cols d,
    forallb (fun col =>
               column_misses MainTs.width MainTs.height j col
                 (cast_column MainTs.width MainTs.height MainTs.mapWidth MainTs.mapHeight
                    (MainTs.worldMap e) (MainTs.textures e) (MainTs.player e) fuel col))
            cols = true ->
    exists d', MainTs.render_columns fuel e cols d = Ret d' /\
               bytes d' j = bytes d j /\ size d' = size d.
Proof.
  intros Hf. induction cols as [|col cols IH]; intros d H.
  - exists d. repeat split.
  - simpl in H. apply andb_prop in H. destruct H as [Hc Hcs].
    destruct (column_misses_spec _ _ _ _ _ Hc)
      as [r [st [a [b [Ec [Ea [Eb [Hcol [Ha [Hb Hw]]]]]]]]]].
    assert (Hwidth : (0 < MainTs.width)%Z) by reflexivity.
    destruct (three_loops_other MainTs.width MainTs.height col Hwidth Hcol
                (side r) st fuel MainTs.floorRGB MainTs.ceilingRGB a b j d Ea Eb Ha Hb Hf Hw)
      as [d1 [d2 [d3 [E1 [E2 [E3 [Hbytes Hsize]]]]]]].
    destruct (IH d3 Hcs) as [d' [E' [Hb' Hs']]].
    exists d'. cbn [MainTs.render_columns]. rewrite Ec. unfold bind, draw_strip.
    cbn [fst snd]. rewrite E1. unfold bind. rewrite E2, E3, E'.
    repeat split; congruence.
Qed.

(** When every column misses the byte [j], [render] completes and the byte
    [j] of the canvas is the 0 of the fresh image. *)
Lemma main_render_unwritten (fuel : nat) (e : MainTs.Engine) (j : Z) :
  (Z.to_nat MainTs.height < fuel)%nat ->
  main_columns_miss fuel e j = true ->
  exists e', MainTs.render fuel e = Ret e' /\ bytes (MainTs.canvas e') j = 0%Z.
Proof.
  intros Hf H. unfold MainTs.render.
  destruct (main_columns_other fuel e j Hf (range 0 MainTs.width)
              (createImageData MainTs.width MainTs.height) H) as [d' [E [Hb _]]].
  rewrite E. eexists. split; [reflexivity|]. simpl. rewrite Hb. reflexivity.
Qed.

(** C8 fails on the code.  In the engine of [src/src/main.ts] as its
    constructor leaves it (the generated map of the random source [rnd0]),
    [render] completes, and of the column 512, whose wall strip is drawn in
    the rows 325 to 442 and whose floor starts in the row 444, the pixel of
    the row 443 is never written: its four bytes, the alpha byte among them,
    are the zeros of the fresh image. *)
Theorem C8_row_drawEnd_not_written :
  strip_limits
    (cast_column MainTs.width MainTs.height MainTs.mapWidth MainTs.mapHeight
       (MainTs.worldMap main_engine0) (MainTs.textures main_engine0)
       (MainTs.player main_engine0) 1024 512) = Some (325, 443)%Z /\
  exists e',
    MainTs.render 1024 main_engine0 = Ret e' /\
    bytes (MainTs.canvas e') ((443 * 1024 + 512) * 4) = 0%Z /\
    bytes (MainTs.canvas e') ((443 * 1024 + 512) * 4 + 1) = 0%Z /\
    bytes (MainTs.canvas e') ((443 * 1024 + 512) * 4 + 2) = 0%Z /\
    bytes (MainTs.canvas e') ((443 * 1024 + 512) * 4 + 3) = 0%Z.
Proof.
  split; [vm_compute; reflexivity|].
  assert (Hf : (Z.to_nat MainTs.height < 1024)%nat) by (vm_compute; lia).
  destruct (main_render_unwritten 1024 main_engine0 ((443 * 1024 + 512) * 4) Hf)
    as [e0 [E0 H0]]; [vm_compute; reflexivity|].
  destruct (main_render_unwritten 1024 main_engine0 ((443 * 1024 + 512) * 4 + 1) Hf)
    as [e1 [E1 H1]]; [vm_compute; reflexivity|].
  destruct (main_render_unwritten 1024 main_engine0 ((443 * 1024 + 512) * 4 + 2) Hf)
    as [e2 [E2 H2]]; [vm_compute; reflexivity|].
  destruct (main_render_unwritten 1024 main_engine0 ((443 * 1024 + 512) * 4 + 3) Hf)
    as [e3 [E3 H3]]; [vm_compute; reflexivity|].
  exists e0. split; [exact E0|].
  rewrite E0 in E1, E2, E3.
  injection E1 as <-. injection E2 as <-. injection E3 as <-. auto.
Qed.

(** *** The second engine *)

Lemma doom_columns_other (fuel : nat) (e : Doom.Engine) (j : Z) :
  (Z.to_nat Doom.height < fuel)%nat ->
  forall cols n d,
    forallb (fun col =>
               column_misses Doom.width Doom.height j col
                 (cast_column Doom.width Doom.height Doom.mapWidth Doom.mapHeight
                    (Doom.worldMap e) (Doom.textures e) (Doom.player e) fuel col))
            cols = true ->
    exists d', Doom.render_columns fuel e cols n d = Ret (d', (n + 2 * length cols)%nat) /\
               bytes d' j = bytes d j /\ size d' = size d.
Proof.
  intros Hf. induction cols as [|col cols IH]; intros n d H.
  - exists d. simpl. rewrite Nat.add_0_r. repeat split.
  - simpl in H. apply andb_prop in H. destruct H as [Hc Hcs].
    destruct (column_misses_spec _ _ _ _ _ Hc)
      as [r [st [a [b [Ec [Ea [Eb [Hcol [Ha [Hb Hw]]]]]]]]]].
    assert (Hwidth : (0 < Doom.width)%Z) by reflexivity.
    destruct (three_loops_other Doom.width Doom.height col Hwidth Hcol
                (side r) st fuel
                (Doom.rgb_of (Doom.pick Doom.floorColors (Doom.randoms e n)))
                (Doom.rgb_of (Doom.pick Doom.ceilingColors (Doom.randoms e (S n))))
                a b j d Ea Eb Ha Hb Hf Hw)
      as [d1 [d2 [d3 [E1 [E2 [E3 [Hbytes Hsize]]]]]]].
    destruct (IH (S (S n)) d3 Hcs) as [d' [E' [Hb' Hs']]].
    exists d'. cbn [Doom.render_columns]. rewrite Ec. unfold bind.
    cbn [fst snd]. rewrite E1. cbv zeta. rewrite E2, E3, E'.
    replace (n + 2 * length (col :: cols))%nat with (S (S n) + 2 * length cols)%nat
      by (simpl; lia).
    repeat split; congruence.
Qed.

(** The pistol sprite is drawn far from the first bytes of the frame. *)
Lemma draw_weapon_low (e : Doom.Engine) (d : ImageData) (j : Z) :
  Doom.weaponBob e = ofZ 0 -> (j < 1720)%Z ->
  bytes (Doom.draw_weapon e d) j = bytes d j.
Proof.
  intros Hbob Hj. unfold Doom.draw_weapon.
  destruct (weapon (Doom.player e) =? 0)%Z; [|reflexivity]. rewrite Hbob.
  apply (Generation.fold_left_inv _ _ (fun d' => bytes d' j = bytes d j)); [|reflexivity].
  intros d1 wy Hy H1. apply Walk.range_In in Hy.
  apply (Generation.fold_left_inv _ _ (fun d' => bytes d' j = bytes d j)); [|exact H1].
  intros d2 wx Hx H2. apply Walk.range_In in Hx.
  unfold Doom.weapon_pixel. cbv zeta.
  assert (HX : ((ofZ Doom.width - ofZ Doom.weaponWidth) / ofZ 2 + ofZ 50)%num = ofZ 430)
    by (vm_compute; reflexivity).
  assert (HY : (ofZ Doom.height - ofZ Doom.weaponHeight + ofZ 20 + ofZ 0)%num = ofZ 540)
    by (vm_compute; reflexivity).
  rewrite HX, HY, !ofZ_add.
  destruct (_ && _ && _ && _); [|exact H2].
  destruct (_ && _ && _)%Z; [|exact H2].
  unfold Doom.weaponWidth, Doom.weaponHeight in *.
  rewrite ofZ_mul, ofZ_add, ofZ_mul by (unfold Doom.width; lia).
  rewrite put_pixel_other; [exact H2|]. unfold Doom.width. lia.
Qed.

(** When the check of the top left pixel holds, [render] completes, makes
    [2 * width] calls of [Math.random()], and the red byte of the top left
    pixel is the one of the ceiling colour picked for the first column. *)
Lemma doom_render_top_left (fuel : nat) (e : Doom.Engine) :
  (Z.to_nat Doom.height < fuel)%nat ->
  Doom.weaponBob e = ofZ 0 ->
  doom_top_left_check fuel e = true ->
  exists d,
    Doom.render fuel e
    = Ret {| Doom.player := Doom.player e; Doom.worldMap := Doom.worldMap e;
             Doom.textures := Doom.textures e; Doom.weaponBob := Doom.weaponBob e;
             Doom.canvas := d; Doom.randoms := Doom.randoms e;
             Doom.drawn := (Doom.drawn e + 2 * Z.to_nat Doom.width)%nat |} /\
    bytes d 0 = ceiling_red e (S (Doom.drawn e)).
Proof.
  intros Hf Hbob H. unfold doom_top_left_check in H.
  apply andb_prop in H. destruct H as [H0 Hrest].
  destruct (strip_limits _) as [[a b]|] eqn:El; [|discriminate].
  destruct (cast_limits _ a b El) as [r [st [Ec [Ea Eb]]]].
  assert (Hwidth : (0 < Doom.width)%Z) by reflexivity.
  assert (Hcol : (0 <= 0 < Doom.width)%Z) by (unfold Doom.width; lia).
  destruct (Doom.rgb_of (Doom.pick Doom.ceilingColors (Doom.randoms e (S (Doom.drawn e)))))
    as [[cr cg] cb] eqn:Ergb.
  destruct (three_loops_ceiling Doom.width Doom.height 0 Hwidth Hcol (side r) st fuel
              (Doom.rgb_of (Doom.pick Doom.floorColors (Doom.randoms e (Doom.drawn e))))
              cr cg cb a b (createImageData Doom.width Doom.height) Ea Eb)
    as [d1 [d2 [d3 [E1 [E2 [E3 [Hred Hsize]]]]]]];
    [lia|lia|exact Hf|vm_compute; reflexivity|].
  destruct (doom_columns_other fuel e 0 Hf (range 1 Doom.width)
              (S (S (Doom.drawn e))) d3 Hrest) as [d' [E' [Hb' Hs']]].
  exists (Doom.draw_weapon e d'). split.
  - unfold Doom.render.
    rewrite (range_cons 0 Doom.width) by reflexivity.
    cbn [Doom.render_columns]. rewrite Ec. unfold bind.
    cbn [fst snd]. rewrite E1. cbv zeta. rewrite E2, Ergb, E3.
    change (0 + 1)%Z with 1%Z. rewrite E'. cbn [fst snd]. f_equal. f_equal.
    unfold range. rewrite length_map, length_seq. unfold Doom.width. lia.
  - change (0 * 4)%Z with 0%Z in Hred.
    rewrite draw_weapon_low by (auto; lia). rewrite Hb', Hred.
    unfold ceiling_red. rewrite Ergb. reflexivity.
Qed.

(** *** Two calls of [render] in a row *)

(** The raycasting loop reads the player, the map and the textures of the
    engine, and nothing else of it. *)
Lemma main_columns_ext (fuel : nat) (e e' : MainTs.Engine) :
  MainTs.player e' = MainTs.player e -> MainTs.worldMap e' = MainTs.worldMap e ->
  MainTs.textures e' = MainTs.textures e ->
  forall cols d, MainTs.render_columns fuel e' cols d = MainTs.render_columns fuel e cols d.
Proof.
  intros Hp Hw Ht. induction cols as [|col cols IH]; intros d; [reflexivity|].
  cbn [MainTs.render_columns]. rewrite Hp, Hw, Ht.
  destruct (cast_column _ _ _ _ _ _ _ _ _) as [c| |]; try reflexivity.
  unfold bind. destruct (draw_strip _ _ _ _ _ _ _ _ _) as [d'| |]; try reflexivity.
  apply IH.
Qed.

Lemma main_render_twice (fuel : nat) (e : MainTs.Engine) :
  bind (MainTs.render fuel e) (MainTs.render fuel) = MainTs.render fuel e.
Proof.
  unfold MainTs.render.
  destruct (MainTs.render_columns fuel e (range 0 MainTs.width)
              (createImageData MainTs.width MainTs.height)) as [d| |] eqn:E;
    try reflexivity.
  unfold bind at 2 3. unfold bind at 1.
  rewrite (main_columns_ext fuel e
             {| MainTs.player := MainTs.player e; MainTs.worldMap := MainTs.worldMap e;
                MainTs.textures := MainTs.textures e; MainTs.canvas := d |}
             eq_refl eq_refl eq_refl), E.
  reflexivity.
Qed.

(** In the second engine the loop also reads two results of
    [Math.random()] in every column. *)
Lemma doom_columns_agree (fuel : nat) (e e' : Doom.Engine) :
  Doom.player e' = Doom.player e -> Doom.worldMap e' = Doom.worldMap e ->
  Doom.textures e' = Doom.textures e ->
  forall cols n n' d,
    (forall k, (k < 2 * length cols)%nat ->
               Doom.randoms e' (n' + k)%nat = Doom.randoms e (n + k)%nat) ->
    outcome_map fst (Doom.render_columns fuel e' cols n' d)
    = outcome_map fst (Doom.render_columns fuel e cols n d).
Proof.
  intros Hp Hw Ht. induction cols as [|col cols IH]; intros n n' d H; [reflexivity|].
  cbn [Doom.render_columns]. rewrite Hp, Hw, Ht.
  destruct (cast_column _ _ _ _ _ _ _ _ _) as [c| |]; try reflexivity.
  unfold bind. destruct (for_rows _ _ _ _ _) as [d1| |]; try reflexivity.
  cbv zeta.
  assert (H0 : Doom.randoms e' n' = Doom.randoms e n).
  { specialize (H O). rewrite !Nat.add_0_r in H. apply H. simpl. lia. }
  assert (H1 : Doom.randoms e' (S n') = Doom.randoms e (S n)).
  { specialize (H 1%nat). rewrite !Nat.add_1_r in H. apply H. simpl. lia. }
  rewrite H0, H1.
  destruct (for_rows _ _ _ _ d1) as [d2| |]; try reflexivity.
  destruct (for_rows _ _ _ _ d2) as [d3| |]; try reflexivity.
  apply IH. intros k Hk.
  replace (S (S n') + k)%nat with (n' + S (S k))%nat by lia.
  replace (S (S n) + k)%nat with (n + S (S k))%nat by lia.
  apply H. simpl. lia.
Qed.

Lemma doom_columns_count (fuel : nat) (e : Doom.Engine) :
  forall cols n d d' m,
    Doom.render_columns fuel e cols n d = Ret (d', m) ->
    m = (n + 2 * length cols)%nat.
Proof.
  induction cols as [|col cols IH]; intros n d d' m H.
  - simpl in H. injection H as _ <-. simpl. lia.
  - cbn [Doom.render_columns] in H.
    destruct (cast_column _ _ _ _ _ _ _ _ _) as [c| |]; try discriminate.
    unfold bind in H. destruct (for_rows _ _ _ _ _) as [d1| |]; try discriminate.
    cbv zeta in H.
    destruct (for_rows _ _ _ _ d1) as [d2| |]; try discriminate.
    destruct (for_rows _ _ _ _ d2) as [d3| |]; try discriminate.
    apply IH in H. simpl. lia.
Qed.

Lemma doom_render_twice (fuel : nat) (e : Doom.Engine) :
  (forall k, (k < 2 * Z.to_nat Doom.width)%nat ->
     Doom.randoms e (Doom.drawn e + 2 * Z.to_nat Doom.width + k)%nat
     = Doom.randoms e (Doom.drawn e + k)%nat) ->
  outcome_map Doom.canvas (bind (Doom.render fuel e) (Doom.render fuel))
  = outcome_map Doom.canvas (Doom.render fuel e).
Proof.
  intros H. unfold Doom.render.
  destruct (Doom.render_columns fuel e (range 0 Doom.width) (Doom.drawn e)
              (createImageData Doom.width Doom.height)) as [[d n]| |] eqn:E;
    try reflexivity.
  unfold bind at 2 3. unfold bind at 1. cbn [fst snd].
  assert (Hlen : length (range 0 Doom.width) = Z.to_nat Doom.width).
  { unfold range. rewrite length_map, length_seq. reflexivity. }
  pose proof (doom_columns_count fuel e _ _ _ _ _ E) as Hn. rewrite Hlen in Hn.
  set (e1 := {| Doom.player := Doom.player e; Doom.worldMap := Doom.worldMap e;
                Doom.textures := Doom.textures e; Doom.weaponBob := Doom.weaponBob e;
                Doom.canvas := Doom.draw_weapon e d; Doom.randoms := Doom.randoms e;
                Doom.drawn := n |}).
  pose proof (doom_columns_agree fuel e e1 eq_refl eq_refl eq_refl
                (range 0 Doom.width) (Doom.drawn e) (Doom.drawn e1)
                (createImageData Doom.width Doom.height)) as Hagree.
  rewrite E, Hlen in Hagree. cbn [Doom.drawn e1 outcome_map fst] in Hagree.
  assert (Hdraws : forall k, (k < 2 * Z.to_nat Doom.width)%nat ->
                     Doom.randoms e1 (n + k)%nat = Doom.randoms e (Doom.drawn e + k)%nat).
  { intros k Hk. subst n. apply H. exact Hk. }
  specialize (Hagree Hdraws). change (Doom.drawn e1) with n.
  destruct (Doom.render_columns fuel e1 (range 0 Doom.width) n
              (createImageData Doom.width Doom.height)) as [[d' n']| |];
    cbn [outcome_map fst] in Hagree; try discriminate.
  injection Hagree as ->. reflexivity.
Qed.

(** C1, as amended.  Two calls of [render] in a row, with nothing changed
    in between, give the same frame in the engine of [src/src/main.ts].  In
    the second engine [render] picks the colours of floor and ceiling of
    every column with [Math.random()]; there the two frames are the same
    when the [2 * width] results of [Math.random()] of the second call
    repeat those of the first. *)
Theorem C1_render_repeatable (fuel : nat) (em : MainTs.Engine) (ed : Doom.Engine) :
  (forall k, (k < 2 * Z.to_nat Doom.width)%nat ->
     Doom.randoms ed (Doom.drawn ed + 2 * Z.to_nat Doom.width + k)%nat
     = Doom.randoms ed (Doom.drawn ed + k)%nat) ->
  bind (MainTs.render fuel em) (MainTs.render fuel) = MainTs.render fuel em /\
  outcome_map Doom.canvas (bind (Doom.render fuel ed) (Doom.render fuel))
  = outcome_map Doom.canvas (Doom.render fuel ed).
Proof.
  intros H. split; [apply main_render_twice|apply doom_render_twice; exact H].
Qed.

Lemma C1_witness :
  (forall k, (k < 2 * Z.to_nat Doom.width)%nat ->
     Doom.randoms doom_engine_const
       (Doom.drawn doom_engine_const + 2 * Z.to_nat Doom.width + k)%nat
     = Doom.randoms doom_engine_const (Doom.drawn doom_engine_const + k)%nat) /\
  bind (MainTs.render 1024 main_engine0) (MainTs.render 1024)
  = MainTs.render 1024 main_engine0 /\
  outcome_map Doom.canvas (bind (Doom.render 1024 doom_engine_const) (Doom.render 1024))
  = outcome_map Doom.canvas (Doom.render 1024 doom_engine_const).
Proof.
  assert (H : forall k, (k < 2 * Z.to_nat Doom.width)%nat ->
                Doom.randoms doom_engine_const
                  (Doom.drawn doom_engine_const + 2 * Z.to_nat Doom.width + k)%nat
                = Doom.randoms doom_engine_const (Doom.drawn doom_engine_const + k)%nat)
    by (intros k _; reflexivity).
  split; [exact H|].
  exact (C1_render_repeatable 1024 main_engine0 doom_engine_const H).
Defined.

(** C1 as it is stated fails in the second engine: two calls of
    [render] in a row, with the same player, map and textures, give frames
    whose first byte (the red byte of the top left pixel, a ceiling pixel)
    is 0x20 in the first frame and 0x25 in the second. *)
Lemma C1_frames_differ :
  exists e1 e2,
    Doom.render 1024 doom_engine0 = Ret e1 /\
    Doom.render 1024 e1 = Ret e2 /\
    Doom.player e1 = Doom.player doom_engine0 /\
    Doom.worldMap e1 = Doom.worldMap doom_engine0 /\
    Doom.textures e1 = Doom.textures doom_engine0 /\
    Doom.weaponBob e1 = Doom.weaponBob doom_engine0 /\
    bytes (Doom.canvas e1) 0 = 32%Z /\ bytes (Doom.canvas e2) 0 = 37%Z.
Proof.
  assert (Hf : (Z.to_nat Doom.height < 1024)%nat) by (vm_compute; lia).
  destruct (doom_render_top_left 1024 doom_engine0 Hf eq_refl) as [d1 [E1 R1]];
    [vm_compute; reflexivity|].
  match type of E1 with _ = Ret ?e => set (e1 := e) in * end.
  destruct (doom_render_top_left 1024 e1 Hf eq_refl) as [d2 [E2 R2]];
    [vm_compute; reflexivity|].
  match type of E2 with _ = Ret ?e => exists e1, e end.
  split; [exact E1|]. split; [exact E2|].
  repeat (split; [reflexivity|]). split.
  - cbn [Doom.canvas e1]. rewrite R1. vm_compute. reflexivity.
  - cbn [Doom.canvas]. rewrite R2. vm_compute. reflexivity.
Qed.

End Frame.
